(** * Discovery engine of go-pvaccess: beacons and search responses

    A shallow embedding of package [search]:

    - [internal/search/search.go] (module [Search]): [Serve] on top of the
      [udpconn] listener, the accept loop [serve] and the per-datagram
      [handleConnection];
    - the earlier [Serve] that dials one socket per interface address
      (module [Legacy]), with [sender.send].

    The packages [proto], [connection], [udpconn] and [ctxlog] are not part
    of the sources at hand.  Their constants and the width of the beacon
    sequence counter are collected in the record [Proto.Decls] and stay
    abstract; their calls appear as events of a log, and the results the
    environment hands back (random bytes, sockets, datagrams, timer ticks)
    are fields of an environment record. *)

From Stdlib Require Import String ZArith Lia Bool List.
From Stdlib.Strings Require Import Byte.
Import ListNotations.
Local Open Scope Z_scope.

(* ================================================================== *)
(** ** Go's fixed-width integers *)

(** The unsigned integer types of Go; [bits] is the width. *)
Inductive UIntWidth := U8 | U16 | U32 | U64.

Definition bits (w : UIntWidth) : Z :=
  match w with U8 => 8 | U16 => 16 | U32 => 32 | U64 => 64 end.

(** Conversion to an unsigned type of width [w]: [x mod 2^w]. *)
Definition to_uint (w : UIntWidth) (x : Z) : Z := x mod 2 ^ bits w.

(** [x++] on an unsigned value of width [w]. *)
Definition uint_incr (w : UIntWidth) (x : Z) : Z := to_uint w (x + 1).

(** Go's [int] is 32 or 64 bits wide, depending on the platform. *)
Inductive IntSize := Int32 | Int64.

Definition int_bits (a : IntSize) : Z :=
  match a with Int32 => 32 | Int64 => 64 end.

(** Two's complement wrap-around into the range of [int]. *)
Definition to_int (a : IntSize) (x : Z) : Z :=
  (x + 2 ^ (int_bits a - 1)) mod 2 ^ int_bits a - 2 ^ (int_bits a - 1).

(** [i++] on an [int]. *)
Definition int_incr (a : IntSize) (i : Z) : Z := to_int a (i + 1).

(** [uint16(x)]. *)
Definition uint16 (x : Z) : Z := to_uint U16 x.

(* ================================================================== *)
(** ** Errors and results *)

(** Go [error] values that are not nil.  [io_EOF] is the sentinel the
    code compares against with [==]. *)
Inductive error :=
| io_EOF
| context_Canceled
| context_DeadlineExceeded
| OtherError (msg : string).

Definition is_EOF (e : error) : bool :=
  match e with io_EOF => true | _ => false end.

(** The outcome of a call returning [(value, error)]. *)
Inductive result (A : Type) :=
| Ok (a : A)
| Err (e : error).
Arguments Ok {A} a.
Arguments Err {A} e.

(* ================================================================== *)
(** ** Package net (Go standard library) *)

Module Net.

(** [net.IP] is a byte slice; the nil slice is the empty list. *)
Definition IP := list byte.

Definition IPv4len : nat := 4.
Definition IPv6len : nat := 16.

Definition v4InV6Prefix : list byte :=
  [x00; x00; x00; x00; x00; x00; x00; x00; x00; x00; xff; xff].

Definition IPv4 (a b c d : byte) : IP := v4InV6Prefix ++ [a; b; c; d].

Definition IPv4bcast : IP := IPv4 xff xff xff xff.
Definition IPv4zero : IP := IPv4 x00 x00 x00 x00.
Definition IPv6unspecified : IP := repeat x00 16.
Definition IPv6linklocalallnodes : IP :=
  [xff; x02; x00; x00; x00; x00; x00; x00;
   x00; x00; x00; x00; x00; x00; x00; x01].

Definition bytes_eqb (a b : list byte) : bool :=
  if list_eq_dec Byte.byte_eq_dec a b then true else false.

(** [ip.To16()]: the 16-byte form, or nil when [ip] has a wrong length. *)
Definition To16 (ip : IP) : IP :=
  match ip with
  | [a; b; c; d] => IPv4 a b c d
  | _ => if Nat.eqb (length ip) IPv6len then ip else []
  end.

(** [ip.To4()]: the 4-byte form, or nil when [ip] is not an IPv4 address. *)
Definition To4 (ip : IP) : IP :=
  if Nat.eqb (length ip) IPv4len then ip
  else if Nat.eqb (length ip) IPv6len
          && bytes_eqb (firstn 12 ip) v4InV6Prefix
       then skipn 12 ip
       else [].

(** [ip.Equal(x)]. *)
Definition Equal (ip x : IP) : bool :=
  if Nat.eqb (length ip) (length x) then bytes_eqb ip x
  else if Nat.eqb (length ip) IPv4len && Nat.eqb (length x) IPv6len
       then bytes_eqb (firstn 12 x) v4InV6Prefix && bytes_eqb ip (skipn 12 x)
  else if Nat.eqb (length ip) IPv6len && Nat.eqb (length x) IPv4len
       then bytes_eqb (firstn 12 ip) v4InV6Prefix && bytes_eqb (skipn 12 ip) x
  else false.

(** [ip.IsUnspecified()]. *)
Definition IsUnspecified (ip : IP) : bool :=
  Equal ip IPv4zero || Equal ip IPv6unspecified.

Record TCPAddr := { tcp_IP : IP; tcp_Port : Z; tcp_Zone : string }.
Record UDPAddr := { udp_IP : IP; udp_Port : Z; udp_Zone : string }.
Record IPAddr := { ipa_IP : IP; ipa_Zone : string }.

(** What [Interface.Addrs] returns: [*net.IPNet] values and others. *)
Inductive Addr :=
| IPNet (ip : IP) (mask : list byte)
| OtherAddr (s : string).

Record Interface := { Name : string; Addrs : result (list Addr) }.

End Net.

(** The builtin [copy(dst, src)] on byte slices: the first
    [min (len dst) (len src)] bytes of [dst] are overwritten. *)
Definition copy (dst src : list byte) : list byte :=
  firstn (length dst) src ++ skipn (length src) dst.

(** A zeroed [[n]byte] array. *)
Definition zero_bytes (n : nat) : list byte := repeat x00 n.

(* ================================================================== *)
(** ** Package time *)

Module Time.
(** [time.Duration] counts nanoseconds. *)
Definition Second : Z := 1000000000.
End Time.

(* ================================================================== *)
(** ** Package proto: the messages this package reads and writes *)

Module Proto.

(** Declarations of package [proto] used by the code and absent from
    the sources: command codes, flag bits and the unsigned type of
    [BeaconMessage.BeaconSequenceID]. *)
Record Decls := {
  APP_BEACON : Z;
  APP_SEARCH_REQUEST : Z;
  APP_SEARCH_RESPONSE : Z;
  FLAG_FROM_SERVER : Z;
  SEARCH_REPLY_REQUIRED : Z;
  BeaconSequenceID_width : UIntWidth
}.

Module BeaconMessage.
Record t := {
  GUID : list byte;              (* [12]byte *)
  BeaconSequenceID : Z;
  ServerAddress : list byte;     (* [16]byte *)
  ServerPort : Z;                (* uint16 *)
  Protocol : string
}.

(** [var beacon proto.BeaconMessage] *)
Definition zero : t :=
  {| GUID := zero_bytes 12; BeaconSequenceID := 0;
     ServerAddress := zero_bytes 16; ServerPort := 0; Protocol := ""%string |}.

Definition set_GUID (g : list byte) (b : t) : t :=
  {| GUID := g; BeaconSequenceID := BeaconSequenceID b;
     ServerAddress := ServerAddress b; ServerPort := ServerPort b;
     Protocol := Protocol b |}.
Definition set_BeaconSequenceID (n : Z) (b : t) : t :=
  {| GUID := GUID b; BeaconSequenceID := n;
     ServerAddress := ServerAddress b; ServerPort := ServerPort b;
     Protocol := Protocol b |}.
Definition set_ServerAddress (a : list byte) (b : t) : t :=
  {| GUID := GUID b; BeaconSequenceID := BeaconSequenceID b;
     ServerAddress := a; ServerPort := ServerPort b;
     Protocol := Protocol b |}.
Definition set_ServerPort (p : Z) (b : t) : t :=
  {| GUID := GUID b; BeaconSequenceID := BeaconSequenceID b;
     ServerAddress := ServerAddress b; ServerPort := p;
     Protocol := Protocol b |}.
Definition set_Protocol (p : string) (b : t) : t :=
  {| GUID := GUID b; BeaconSequenceID := BeaconSequenceID b;
     ServerAddress := ServerAddress b; ServerPort := ServerPort b;
     Protocol := p |}.
End BeaconMessage.

Module SearchRequestChannel.
Record t := { SearchInstanceID : Z; ChannelName : string }.
End SearchRequestChannel.

Module SearchRequest.
Record t := {
  SearchSequenceID : Z;
  Flags : Z;
  Channels : list SearchRequestChannel.t
}.
End SearchRequest.

Module SearchResponse.
Record t := {
  GUID : list byte;              (* [12]byte *)
  SearchSequenceID : Z;
  ServerAddress : list byte;     (* [16]byte *)
  ServerPort : Z;                (* PVUShort *)
  Protocol : string;
  Found : bool;
  SearchInstanceIDs : list Z
}.

Definition set_ServerAddress (a : list byte) (r : t) : t :=
  {| GUID := GUID r; SearchSequenceID := SearchSequenceID r;
     ServerAddress := a; ServerPort := ServerPort r;
     Protocol := Protocol r; Found := Found r;
     SearchInstanceIDs := SearchInstanceIDs r |}.
Definition set_Found (f : bool) (r : t) : t :=
  {| GUID := GUID r; SearchSequenceID := SearchSequenceID r;
     ServerAddress := ServerAddress r; ServerPort := ServerPort r;
     Protocol := Protocol r; Found := f;
     SearchInstanceIDs := SearchInstanceIDs r |}.
Definition set_SearchInstanceIDs (l : list Z) (r : t) : t :=
  {| GUID := GUID r; SearchSequenceID := SearchSequenceID r;
     ServerAddress := ServerAddress r; ServerPort := ServerPort r;
     Protocol := Protocol r; Found := Found r;
     SearchInstanceIDs := l |}.
End SearchResponse.

(** A framed message as [Connection.Next] returns it: the command of
    its header and what [msg.Decode(&req)] makes of its payload. *)
Record Message := {
  MessageCommand : Z;
  Decode : result SearchRequest.t
}.

End Proto.

(* ================================================================== *)
(** ** Package udpconn, at its interface *)

Module Udpconn.

(** A pseudo-connection handed out by [Listener.Accept]: its two
    addresses, and what the one read of a framed message on it
    ([connection.Connection.Next]) comes back with. *)
Module Conn.
Record t := {
  LocalAddr : Net.UDPAddr;
  Addr : Net.UDPAddr;
  Next : result Proto.Message
}.
End Conn.

(** A listener: its local address, the addresses its broadcast socket
    sends to, and the outcomes of the successive calls of [Accept]. *)
Module Listener.
Record t := {
  LocalAddr : Net.UDPAddr;
  BroadcastSendAddresses : list Net.UDPAddr;
  Accept : list (result Conn.t)
}.
End Listener.

End Udpconn.

(* ================================================================== *)
(** ** Effects: the log of calls made to the outside *)

(** The socket under a [connection.Connection]. *)
Inductive Socket :=
| BroadcastConn (to : list Net.UDPAddr)         (* ln.BroadcastConn() *)
| Accepted (local remote : Net.UDPAddr)         (* from ln.Accept() *)
| Dialed (laddr raddr : Net.UDPAddr).           (* from net.DialUDP *)

(** [connection.New(sock, flags)]; [Version] is [Some v] once the code
    has assigned [c.Version = v]. *)
Record Connection := {
  sock : Socket;
  flags : Z;
  Version : option Z
}.

Inductive Payload :=
| Beacon (b : Proto.BeaconMessage.t)
| Response (r : Proto.SearchResponse.t).

Inductive Event :=
| CallRandRead                                   (* rand.Read *)
| CallListen                                     (* udpconn.Listen *)
| CallInterfaces                                 (* net.Interfaces *)
| CallAddrs (name : string)                      (* i.Addrs *)
| CallDialUDP (laddr raddr : Net.UDPAddr)        (* net.DialUDP *)
| CallNext                                       (* c.Next *)
| CallDecode                                     (* msg.Decode *)
| LogInfofAddrs (l : list Net.UDPAddr)
| LogInfofIPs (l : list Net.IPAddr)
| LogDebugf (req : Proto.SearchRequest.t)
| LogWarnf (e : error)
| LogErrorf (e : error)
| GoServe                                        (* go searchServer.serve *)
| GoHandleConnection                             (* go s.handleConnection *)
| NewTicker (d : Z)                              (* time.NewTicker *)
| TickerStop                                     (* ticker.Stop *)
| SendApp (c : Connection) (cmd : Z) (p : Payload)
| ConnClose
| ListenerClose.

(** A computation that logs events and either yields a value or stops
    with an error ([if err != nil { return err }]). *)
Definition M (A : Type) : Type := (list Event * result A)%type.

Definition ret {A} (a : A) : M A := ([], Ok a).

Definition bind {A B} (m : M A) (k : A -> M B) : M B :=
  match m with
  | (l, Ok a) => let (l', r) := k a in (l ++ l', r)
  | (l, Err e) => (l, Err e)
  end.

(** An outside call: one event, and the result the environment gives. *)
Definition call {A} (ev : Event) (r : result A) : M A := ([ev], r).

Definition emit (evs : list Event) : M unit := (evs, Ok tt).

Declare Scope go_scope.
Delimit Scope go_scope with go.
Notation "x <- m ;; k" := (bind m (fun x => k))
  (at level 61, m at next level, right associativity) : go_scope.
Notation "m ;;; k" := (bind m (fun _ => k))
  (at level 61, right associativity) : go_scope.

(** A function whose every exit is [return err]: the error returned,
    whether by an early exit or by the last statement. *)
Definition returned (m : M error) : list Event * error :=
  match m with
  | (l, Ok e) => (l, e)
  | (l, Err e) => (l, e)
  end.

(** The beacons and the search responses handed to [SendApp] in a log. *)
Fixpoint beacons (l : list Event) : list Proto.BeaconMessage.t :=
  match l with
  | [] => []
  | SendApp _ _ (Beacon b) :: l' => b :: beacons l'
  | _ :: l' => beacons l'
  end.

Fixpoint responses (l : list Event) : list Proto.SearchResponse.t :=
  match l with
  | [] => []
  | SendApp _ _ (Response r) :: l' => r :: responses l'
  | _ :: l' => responses l'
  end.

(** The period of the ticker last created in a log. *)
Fixpoint ticker_period (l : list Event) (current : option Z) : option Z :=
  match l with
  | [] => current
  | NewTicker d :: l' => ticker_period l' (Some d)
  | _ :: l' => ticker_period l' current
  end.

(** What the loop of [Serve] receives from its [select]. *)
Inductive Select :=
| tick                       (* <-ticker.C *)
| done (e : error).          (* <-ctx.Done(), with ctx.Err() = e *)

(* ================================================================== *)
(** ** internal/search/search.go *)

Module Search.

Import Proto.

Definition startupInterval : Z := Time.Second.
Definition startupCount : Z := 15.
Definition beaconInterval : Z := 5 * Time.Second.

Record searchServer := {
  GUID : list byte;                (* [12]byte *)
  ServerPort : Z                   (* int *)
}.

(** What the environment answers to the calls of [Serve]. *)
Record Env := {
  rand_Read : result (list byte);              (* the 12 bytes read *)
  udpconn_Listen : result Udpconn.Listener.t;
  arch : IntSize                               (* the width of [int] *)
}.

Section WithDecls.

Variable P : Decls.

(** [req.Flags&proto.SEARCH_REPLY_REQUIRED == proto.SEARCH_REPLY_REQUIRED] *)
Definition reply_required (req : SearchRequest.t) : bool :=
  Z.land (SearchRequest.Flags req) (SEARCH_REPLY_REQUIRED P)
  =? SEARCH_REPLY_REQUIRED P.

(** Lines 140-146 of [handleConnection]: the response as first built,
    with the address of [laddr] copied into it. *)
Definition newResponse (s : searchServer) (laddr : Net.UDPAddr)
           (req : SearchRequest.t) : SearchResponse.t :=
  let resp :=
    {| SearchResponse.GUID := GUID s;
       SearchResponse.SearchSequenceID := SearchRequest.SearchSequenceID req;
       SearchResponse.ServerAddress := zero_bytes 16;
       SearchResponse.ServerPort := uint16 (ServerPort s);
       SearchResponse.Protocol := "tcp";
       SearchResponse.Found := false;
       SearchResponse.SearchInstanceIDs := [] |} in
  SearchResponse.set_ServerAddress
    (copy (SearchResponse.ServerAddress resp) (Net.To16 (Net.udp_IP laddr)))
    resp.

(** The loop of lines 151-153. *)
Definition appendInstanceIDs (channels : list SearchRequestChannel.t)
           (ids : list Z) : list Z :=
  fold_left
    (fun ids channel => ids ++ [SearchRequestChannel.SearchInstanceID channel])
    channels ids.

(** Lines 149-158 of [handleConnection], as a function of the value
    the local [found] has when line 149 is reached. *)
Definition reply (c : Connection) (req : SearchRequest.t)
           (resp : SearchResponse.t) (found : list Z) : list Event :=
  let resp :=
    if Nat.eqb (length found) 0 then
      let resp := SearchResponse.set_Found false resp in
      SearchResponse.set_SearchInstanceIDs
        (appendInstanceIDs (SearchRequest.Channels req)
                           (SearchResponse.SearchInstanceIDs resp))
        resp
    else resp in
  if Nat.ltb 0 (length found) || reply_required req
  then [SendApp c (APP_SEARCH_RESPONSE P) (Response resp)]
  else [].

(** [var found []pvdata.PVUInt], line 147.  Nothing fills it (line
    148 is "TODO: Find channels"), so it is nil at line 149. *)
Definition found : list Z := [].

Definition handleConnection (s : searchServer) (laddr : Net.UDPAddr)
           (conn : Udpconn.Conn.t) : list Event * error :=
  let c := {| sock := Accepted (Udpconn.Conn.LocalAddr conn)
                               (Udpconn.Conn.Addr conn);
              flags := FLAG_FROM_SERVER P;
              Version := Some 2 |} in
  let '(log, err) :=
    returned (
      msg <- call CallNext (Udpconn.Conn.Next conn) ;;
      if MessageCommand msg =? APP_SEARCH_REQUEST P then
        req <- call CallDecode (Decode msg) ;;
        emit [LogDebugf req] ;;;
        emit (reply c req (newResponse s laddr req) found) ;;;
        ret io_EOF
      else
        ret io_EOF)%go in
  (* deferred: conn.Close(), then the warning *)
  (log ++ [ConnClose] ++ (if is_EOF err then [] else [LogWarnf err]), err).

(** One run of the accept loop: the log of [serve] itself, the error
    it returned ([None] while it waits in [Accept]), and the run of
    every handler it started, in the order of acceptance. *)
Record ServeRun := {
  own : list Event;
  exit : option error;
  handlers : list (list Event * error)
}.

Fixpoint accept_loop (s : searchServer) (ln : Udpconn.Listener.t)
         (accepts : list (result Udpconn.Conn.t)) : ServeRun :=
  match accepts with
  | [] => {| own := []; exit := None; handlers := [] |}
  | Err err :: _ =>
      (* return err; deferred: ln.Close(), then the error log *)
      {| own := [ListenerClose; LogErrorf err];
         exit := Some err; handlers := [] |}
  | Ok conn :: rest =>
      let r := accept_loop s ln rest in
      {| own := GoHandleConnection :: own r;
         exit := exit r;
         handlers :=
           handleConnection s (Udpconn.Listener.LocalAddr ln) conn
           :: handlers r |}
  end.

Definition serve (s : searchServer) (ln : Udpconn.Listener.t) : ServeRun :=
  accept_loop s ln (Udpconn.Listener.Accept ln).

(** [Serve] up to the start of the ticker: the beacon template and
    the listener, or the error returned. *)
Definition startup (env : Env) (serverAddr : Net.TCPAddr)
  : M (BeaconMessage.t * Udpconn.Listener.t) :=
  (guid <- call CallRandRead (rand_Read env) ;;
   let beacon :=
     BeaconMessage.set_GUID
       (copy (BeaconMessage.GUID BeaconMessage.zero) guid)
       BeaconMessage.zero in
   let beacon :=
     if Nat.ltb 0 (length (Net.tcp_IP serverAddr)) then
       BeaconMessage.set_ServerAddress
         (copy (BeaconMessage.ServerAddress beacon)
               (Net.To16 (Net.tcp_IP serverAddr)))
         beacon
     else beacon in
   let beacon :=
     BeaconMessage.set_ServerPort (uint16 (Net.tcp_Port serverAddr)) beacon in
   let beacon := BeaconMessage.set_Protocol "tcp" beacon in
   ln <- call CallListen (udpconn_Listen env) ;;
   emit [LogInfofAddrs (Udpconn.Listener.BroadcastSendAddresses ln)] ;;;
   emit [GoServe] ;;;
   ret (beacon, ln))%go.

(** The variables of the loop of [Serve]. *)
Record LoopState := {
  beacon : BeaconMessage.t;
  i : Z;
  ticker : Z                     (* period of the current ticker *)
}.

(** The body of [case <-ticker.C]. *)
Definition on_tick (a : IntSize) (beaconSender : Connection)
           (st : LoopState) : LoopState * list Event :=
  let beacon :=
    BeaconMessage.set_BeaconSequenceID
      (uint_incr (BeaconSequenceID_width P)
                 (BeaconMessage.BeaconSequenceID (beacon st)))
      (beacon st) in
  let send := SendApp beaconSender (APP_BEACON P) (Beacon beacon) in
  let i := int_incr a (i st) in
  if i =? startupCount then
    ({| beacon := beacon; i := i; ticker := beaconInterval |},
     [send; TickerStop; NewTicker beaconInterval])
  else
    ({| beacon := beacon; i := i; ticker := ticker st |}, [send]).

Fixpoint loop (a : IntSize) (beaconSender : Connection)
         (sel : list Select) (st : LoopState) : list Event * option error :=
  match sel with
  | [] => ([], None)
  | done e :: _ => ([TickerStop], Some e)        (* deferred ticker.Stop() *)
  | tick :: sel' =>
      let (st', evs) := on_tick a beaconSender st in
      let (l, r) := loop a beaconSender sel' st' in
      (evs ++ l, r)
  end.

Definition beaconSender (ln : Udpconn.Listener.t) : Connection :=
  {| sock := BroadcastConn (Udpconn.Listener.BroadcastSendAddresses ln);
     flags := FLAG_FROM_SERVER P;
     Version := Some 2 |}.

(** [Serve]: the log, and the error returned ([None] while the loop
    waits in its [select], the events [sel] having been consumed). *)
Definition Serve (env : Env) (serverAddr : Net.TCPAddr)
           (sel : list Select) : list Event * option error :=
  match startup env serverAddr with
  | (l, Err e) => (l, Some e)
  | (l, Ok (beacon, ln)) =>
      let (l', r) :=
        loop (arch env) (beaconSender ln) sel
             {| beacon := beacon; i := 0; ticker := startupInterval |} in
      (l ++ NewTicker startupInterval :: l', r)
  end.

(** The goroutine [Serve] starts at lines 63-70 ([None] when [Serve]
    returns before starting it): the run of [serve], and the error
    log that follows an exit other than [io.EOF]. *)
Definition Serve_search (env : Env) (serverAddr : Net.TCPAddr)
  : option ServeRun :=
  match startup env serverAddr with
  | (_, Err _) => None
  | (_, Ok (beacon, ln)) =>
      let r := serve {| GUID := BeaconMessage.GUID beacon;
                        ServerPort := Net.tcp_Port serverAddr |} ln in
      Some {| own := own r ++
                     match exit r with
                     | Some err => if is_EOF err then [] else [LogErrorf err]
                     | None => []
                     end;
              exit := exit r;
              handlers := handlers r |}
  end.

End WithDecls.

End Search.

(* ================================================================== *)
(** ** The earlier [Serve]: one dialled socket per interface address *)

Module Legacy.

Import Proto.

Definition udpPort : Z := 5076.

Definition startupInterval : Z := Time.Second.
Definition startupCount : Z := 15.
Definition beaconInterval : Z := 5 * Time.Second.

Record sender := {
  conn : Connection;
  ip : Net.IP
}.

(** What the environment answers to the calls of [Serve]. *)
Record Env := {
  rand_Read : result (list byte);
  net_Interfaces : result (list Net.Interface);
  net_DialUDP : Net.UDPAddr -> Net.UDPAddr -> option error;
  arch : IntSize
}.

Section WithDecls.

Variable P : Decls.

(** [sender.send]; [pkt] is passed by value. *)
Definition send (s : sender) (pkt : BeaconMessage.t) : list Event :=
  let pkt :=
    BeaconMessage.set_ServerAddress
      (copy (BeaconMessage.ServerAddress pkt) (ip s)) pkt in
  [SendApp (conn s) (APP_BEACON P) (Beacon pkt)].

(** Lines 42-46: the addresses of one interface that are [*net.IPNet]. *)
Definition appendIPs (name : string) (addrs : list Net.Addr)
           (ips : list Net.IPAddr) : list Net.IPAddr :=
  fold_left
    (fun ips addr =>
       match addr with
       | Net.IPNet ip _ => ips ++ [{| Net.ipa_IP := ip; Net.ipa_Zone := name |}]
       | Net.OtherAddr _ => ips
       end)
    addrs ips.

(** Lines 37-47. *)
Fixpoint interfaces_loop (interfaces : list Net.Interface)
         (ips : list Net.IPAddr) : M (list Net.IPAddr) :=
  match interfaces with
  | [] => ret ips
  | i :: rest =>
      (addrs <- call (CallAddrs (Net.Name i)) (Net.Addrs i) ;;
       interfaces_loop rest (appendIPs (Net.Name i) addrs ips))%go
  end.

(** Lines 30-48; [serverAddr.IP == nil] is the test for the empty list. *)
Definition local_ips (env : Env) (serverAddr : Net.TCPAddr)
  : M (list Net.IPAddr) :=
  if Nat.eqb (length (Net.tcp_IP serverAddr)) 0
     || Net.IsUnspecified (Net.tcp_IP serverAddr)
  then
    (interfaces <- call CallInterfaces (net_Interfaces env) ;;
     interfaces_loop interfaces [])%go
  else
    ret [{| Net.ipa_IP := Net.tcp_IP serverAddr;
            Net.ipa_Zone := Net.tcp_Zone serverAddr |}].

(** Lines 55-61: where the beacons of a local address go. *)
Definition remote_of (ip : Net.IPAddr) : Net.UDPAddr :=
  {| Net.udp_IP :=
       if Nat.eqb (length (Net.To4 (Net.ipa_IP ip))) Net.IPv4len
       then Net.IPv4bcast else Net.IPv6linklocalallnodes;
     Net.udp_Port := udpPort;
     Net.udp_Zone := "" |}.

Definition local_of (ip : Net.IPAddr) : Net.UDPAddr :=
  {| Net.udp_IP := Net.ipa_IP ip; Net.udp_Port := 0;
     Net.udp_Zone := Net.ipa_Zone ip |}.

(** Lines 54-70. *)
Fixpoint dial_loop (env : Env) (ips : list Net.IPAddr)
         (senders : list sender) : M (list sender) :=
  match ips with
  | [] => ret senders
  | ip :: rest =>
      let raddr := remote_of ip in
      let laddr := local_of ip in
      (_ <- call (CallDialUDP laddr raddr)
                 (match net_DialUDP env laddr raddr with
                  | Some err => Err err
                  | None => Ok tt
                  end) ;;
       dial_loop env rest
         (senders ++
          [{| conn := {| sock := Dialed laddr raddr;
                         flags := FLAG_FROM_SERVER P;
                         Version := None |};
              ip := Net.ipa_IP ip |}]))%go
  end.

(** [Serve] up to the start of the ticker. *)
Definition startup (env : Env) (serverAddr : Net.TCPAddr)
  : M (BeaconMessage.t * list sender) :=
  (guid <- call CallRandRead (rand_Read env) ;;
   let beacon :=
     BeaconMessage.set_GUID
       (copy (BeaconMessage.GUID BeaconMessage.zero) guid)
       BeaconMessage.zero in
   ips <- local_ips env serverAddr ;;
   emit [LogInfofIPs ips] ;;;
   let beacon :=
     BeaconMessage.set_ServerPort (uint16 (Net.tcp_Port serverAddr)) beacon in
   let beacon := BeaconMessage.set_Protocol "tcp" beacon in
   senders <- dial_loop env ips [] ;;
   ret (beacon, senders))%go.

Record LoopState := {
  beacon : BeaconMessage.t;
  i : Z;
  ticker : Z
}.

(** The body of [case <-ticker.C]. *)
Definition on_tick (a : IntSize) (senders : list sender)
           (st : LoopState) : LoopState * list Event :=
  let beacon :=
    BeaconMessage.set_BeaconSequenceID
      (uint_incr (BeaconSequenceID_width P)
                 (BeaconMessage.BeaconSequenceID (beacon st)))
      (beacon st) in
  let sends := flat_map (fun s => send s beacon) senders in
  let i := int_incr a (i st) in
  if i =? startupCount then
    ({| beacon := beacon; i := i; ticker := beaconInterval |},
     sends ++ [TickerStop; NewTicker beaconInterval])
  else
    ({| beacon := beacon; i := i; ticker := ticker st |}, sends).

Fixpoint loop (a : IntSize) (senders : list sender)
         (sel : list Select) (st : LoopState) : list Event * option error :=
  match sel with
  | [] => ([], None)
  | done e :: _ => ([TickerStop], Some e)
  | tick :: sel' =>
      let (st', evs) := on_tick a senders st in
      let (l, r) := loop a senders sel' st' in
      (evs ++ l, r)
  end.

Definition Serve (env : Env) (serverAddr : Net.TCPAddr)
           (sel : list Select) : list Event * option error :=
  match startup env serverAddr with
  | (l, Err e) => (l, Some e)
  | (l, Ok (beacon, senders)) =>
      let (l', r) :=
        loop (arch env) senders sel
             {| beacon := beacon; i := 0; ticker := startupInterval |} in
      (l ++ NewTicker startupInterval :: l', r)
  end.

End WithDecls.

End Legacy.

(* ================================================================== *)
(** ** The tickers of [Serve], told apart *)

(** Lines 72-88 of [Serve] once more (lines 72-90 of the earlier
    [Serve] are the same), keeping the counter [i] and the variable
    [ticker] only, and numbering the tickers in the order in which
    [time.NewTicker] creates them.  [ticker] is the ticker that the
    variable of that name holds: [ticker.Stop()] of line 84 and the
    [ticker.Stop()] inside the deferred function of line 73, which
    reads the variable when [Serve] returns, both stop that one. *)
Module Tickers.

Inductive TickerEvent :=
| Created (id : nat) (d : Z)        (* ticker number id := time.NewTicker(d) *)
| Stopped (id : nat).               (* ticker number id, Stop() *)

Record LoopState := {
  i : Z;
  ticker : nat;                     (* the ticker held by the variable *)
  created : nat                     (* how many tickers exist *)
}.

(** The body of [case <-ticker.C], lines 82-86. *)
Definition on_tick (a : IntSize) (st : LoopState) : LoopState * list TickerEvent :=
  let i := int_incr a (i st) in
  if i =? Search.startupCount then
    ({| i := i; ticker := created st; created := S (created st) |},
     [Stopped (ticker st); Created (created st) Search.beaconInterval])
  else
    ({| i := i; ticker := ticker st; created := created st |}, []).

Fixpoint loop (a : IntSize) (sel : list Select) (st : LoopState)
  : list TickerEvent * option error :=
  match sel with
  | [] => ([], None)
  | done e :: _ => ([Stopped (ticker st)], Some e)   (* the deferred function *)
  | tick :: sel' =>
      let (st', evs) := on_tick a st in
      let (l, r) := loop a sel' st' in
      (evs ++ l, r)
  end.

(** From line 72 on. *)
Definition run (a : IntSize) (sel : list Select)
  : list TickerEvent * option error :=
  let (l, r) := loop a sel {| i := 0; ticker := 0; created := 1 |} in
  (Created 0 Search.startupInterval :: l, r).

(** The event of the log of [Serve] that a ticker event stands for. *)
Definition erase (ev : TickerEvent) : Event :=
  match ev with
  | Created _ d => NewTicker d
  | Stopped _ => TickerStop
  end.

End Tickers.

(* ================================================================== *)
(** ** A concrete setting, for examples *)

Module Sample.

Import Proto.

(** The codes and flag bits of the pvAccess protocol, with a one-byte
    beacon sequence counter. *)
Definition pva : Decls :=
  {| APP_BEACON := 0;
     APP_SEARCH_REQUEST := 3;
     APP_SEARCH_RESPONSE := 4;
     FLAG_FROM_SERVER := 64;
     SEARCH_REPLY_REQUIRED := 1;
     BeaconSequenceID_width := U8 |}.

Definition ip_192_0_2_5 : Net.IP := [xc0; x00; x02; x05].
Definition ip_192_0_2_255 : Net.IP := [xc0; x00; x02; xff].
Definition ip_10_0_0_1 : Net.IP := [x0a; x00; x00; x01].

Definition guid : list byte :=
  [x01; x02; x03; x04; x05; x06; x07; x08; x09; x0a; x0b; x0c].

Definition udp (ip : Net.IP) (port : Z) : Net.UDPAddr :=
  {| Net.udp_IP := ip; Net.udp_Port := port; Net.udp_Zone := "" |}.

Definition channelA : SearchRequestChannel.t :=
  {| SearchRequestChannel.SearchInstanceID := 1;
     SearchRequestChannel.ChannelName := "A" |}.
Definition channelB : SearchRequestChannel.t :=
  {| SearchRequestChannel.SearchInstanceID := 2;
     SearchRequestChannel.ChannelName := "B" |}.

(** A search for A and B with sequence number 42. *)
Definition request (flags : Z) (channels : list SearchRequestChannel.t)
  : SearchRequest.t :=
  {| SearchRequest.SearchSequenceID := 42;
     SearchRequest.Flags := flags;
     SearchRequest.Channels := channels |}.

Definition datagram (cmd : Z) (req : SearchRequest.t) : Udpconn.Conn.t :=
  {| Udpconn.Conn.LocalAddr := udp ip_192_0_2_255 5076;
     Udpconn.Conn.Addr := udp ip_10_0_0_1 40000;
     Udpconn.Conn.Next :=
       Ok {| MessageCommand := cmd; Decode := Ok req |} |}.

Definition listener (accepts : list (result Udpconn.Conn.t))
  : Udpconn.Listener.t :=
  {| Udpconn.Listener.LocalAddr := udp ip_192_0_2_5 5076;
     Udpconn.Listener.BroadcastSendAddresses := [udp ip_192_0_2_255 5076];
     Udpconn.Listener.Accept := accepts |}.

Definition server : Search.searchServer :=
  {| Search.GUID := guid; Search.ServerPort := 5075 |}.

Definition tcp (ip : Net.IP) : Net.TCPAddr :=
  {| Net.tcp_IP := ip; Net.tcp_Port := 5075; Net.tcp_Zone := "" |}.

Definition env (accepts : list (result Udpconn.Conn.t)) : Search.Env :=
  {| Search.rand_Read := Ok guid;
     Search.udpconn_Listen := Ok (listener accepts);
     Search.arch := Int64 |}.

Definition eth0 : Net.Interface :=
  {| Net.Name := "eth0";
     Net.Addrs := Ok [Net.IPNet (Net.To16 ip_192_0_2_5) [xff; xff; xff; x00];
                      Net.OtherAddr "link"] |}.
Definition lo : Net.Interface :=
  {| Net.Name := "lo";
     Net.Addrs := Ok [Net.IPNet (Net.To16 [x7f; x00; x00; x01])
                                [xff; x00; x00; x00]] |}.

Definition legacy_env : Legacy.Env :=
  {| Legacy.rand_Read := Ok guid;
     Legacy.net_Interfaces := Ok [lo; eth0];
     Legacy.net_DialUDP := fun _ _ => None;
     Legacy.arch := Int64 |}.

Definition bind_error : error := OtherError "listen udp :5076: bind: address already in use".
Definition route_error : error := OtherError "route ip+net: no such network interface".

Definition env_listen_fails : Search.Env :=
  {| Search.rand_Read := Ok guid;
     Search.udpconn_Listen := Err bind_error;
     Search.arch := Int64 |}.

Definition legacy_env_interfaces_fail : Legacy.Env :=
  {| Legacy.rand_Read := Ok guid;
     Legacy.net_Interfaces := Err route_error;
     Legacy.net_DialUDP := fun _ _ => None;
     Legacy.arch := Int64 |}.

End Sample.

(* ================================================================== *)
(** ** Expected values, used to state the properties *)

Module Expected.

Import Proto.

(** The connection a handler answers on. *)
Definition handler_conn (P : Decls) (conn : Udpconn.Conn.t) : Connection :=
  {| sock := Accepted (Udpconn.Conn.LocalAddr conn) (Udpconn.Conn.Addr conn);
     flags := FLAG_FROM_SERVER P;
     Version := Some 2 |}.

(** The response of a request for which nothing was found. *)
Definition not_found_response (s : Search.searchServer) (laddr : Net.UDPAddr)
           (req : SearchRequest.t) : SearchResponse.t :=
  {| SearchResponse.GUID := Search.GUID s;
     SearchResponse.SearchSequenceID := SearchRequest.SearchSequenceID req;
     SearchResponse.ServerAddress :=
       copy (zero_bytes 16) (Net.To16 (Net.udp_IP laddr));
     SearchResponse.ServerPort := uint16 (Search.ServerPort s);
     SearchResponse.Protocol := "tcp";
     SearchResponse.Found := false;
     SearchResponse.SearchInstanceIDs :=
       map SearchRequestChannel.SearchInstanceID (SearchRequest.Channels req) |}.

(** An address of 4 or of 16 bytes. *)
Definition wellformed (ip : Net.IP) : bool :=
  Nat.eqb (length ip) Net.IPv4len || Nat.eqb (length ip) Net.IPv6len.

(** The log of a handler that decoded [req] and sent [out]. *)
Definition request_log (req : SearchRequest.t) (out : list Event) : list Event :=
  [CallNext; CallDecode; LogDebugf req] ++ out ++ [ConnClose].

(** The events of [Serve] before its ticker starts: no message is sent
    and no ticker is touched. *)
Definition startup_event (ev : Event) : bool :=
  match ev with
  | SendApp _ _ _ | NewTicker _ | TickerStop => false
  | _ => true
  end.

(** The test of line 31 of the earlier [Serve]: no configured address. *)
Definition wildcard (serverAddr : Net.TCPAddr) : bool :=
  Nat.eqb (length (Net.tcp_IP serverAddr)) 0
  || Net.IsUnspecified (Net.tcp_IP serverAddr).

(** How the start of [Search.Serve] can fail, with the calls made to
    the outside up to the failure. *)
Inductive SearchStartupFailure (env : Search.Env) (e : error)
  : list Event -> Prop :=
| SearchIdentityFails :
    Search.rand_Read env = Err e ->
    SearchStartupFailure env e [CallRandRead]
| SearchListenFails (guid : list byte) :
    Search.rand_Read env = Ok guid ->
    Search.udpconn_Listen env = Err e ->
    SearchStartupFailure env e [CallRandRead; CallListen].

Definition CallAddrsOf (i : Net.Interface) : Event := CallAddrs (Net.Name i).

Definition CallDialOf (ip : Net.IPAddr) : Event :=
  CallDialUDP (Legacy.local_of ip) (Legacy.remote_of ip).

(** How the start of [Legacy.Serve] can fail, with the calls made to
    the outside up to the failure. *)
Inductive LegacyStartupFailure (env : Legacy.Env)
          (serverAddr : Net.TCPAddr) (e : error) : list Event -> Prop :=
| LegacyIdentityFails :
    Legacy.rand_Read env = Err e ->
    LegacyStartupFailure env serverAddr e [CallRandRead]
| LegacyInterfacesFail (guid : list byte) :
    Legacy.rand_Read env = Ok guid ->
    wildcard serverAddr = true ->
    Legacy.net_Interfaces env = Err e ->
    LegacyStartupFailure env serverAddr e [CallRandRead; CallInterfaces]
| LegacyAddrsFail (guid : list byte) (before : list Net.Interface)
                  (i : Net.Interface) (after : list Net.Interface) :
    Legacy.rand_Read env = Ok guid ->
    wildcard serverAddr = true ->
    Legacy.net_Interfaces env = Ok (before ++ i :: after) ->
    Forall (fun j => exists addrs, Net.Addrs j = Ok addrs) before ->
    Net.Addrs i = Err e ->
    LegacyStartupFailure env serverAddr e
      ([CallRandRead; CallInterfaces] ++ map CallAddrsOf (before ++ [i]))
| LegacyDialFails (guid : list byte) (l : list Event)
                  (before : list Net.IPAddr) (ip : Net.IPAddr)
                  (after : list Net.IPAddr) :
    Legacy.rand_Read env = Ok guid ->
    Legacy.local_ips env serverAddr = (l, Ok (before ++ ip :: after)) ->
    Forall (fun j => Legacy.net_DialUDP env (Legacy.local_of j)
                                        (Legacy.remote_of j) = None) before ->
    Legacy.net_DialUDP env (Legacy.local_of ip) (Legacy.remote_of ip) = Some e ->
    LegacyStartupFailure env serverAddr e
      ([CallRandRead] ++ l ++ [LogInfofIPs (before ++ ip :: after)]
         ++ map CallDialOf (before ++ [ip])).

(** The address every beacon of [Search.Serve] carries. *)
Definition search_beacon_address (serverAddr : Net.TCPAddr) : list byte :=
  if Nat.ltb 0 (length (Net.tcp_IP serverAddr))
  then copy (zero_bytes 16) (Net.To16 (Net.tcp_IP serverAddr))
  else zero_bytes 16.

(** The sequence numbers of the beacons of ticks 1 to [n], each tick
    sending [copies] beacons, for a counter of width [w]. *)
Definition sequence_numbers (w : UIntWidth) (copies n : nat) : list Z :=
  flat_map (fun k => repeat (to_uint w (Z.of_nat k)) copies) (seq 1 n).

(** The period of the ticker after [n] ticks. *)
Definition period_after (n : nat) : Z :=
  if Nat.ltb n 15 then Time.Second else 5 * Time.Second.

(** The copy of [pkt] that [send] transmits for a sender. *)
Definition sent_copy (pkt : BeaconMessage.t) (s : Legacy.sender) : BeaconMessage.t :=
  BeaconMessage.set_ServerAddress
    (copy (BeaconMessage.ServerAddress pkt) (Legacy.ip s)) pkt.

(** The senders that [dial_loop] adds: one per address, on a socket
    dialled from that very address. *)
Definition dialled_from_own_address (s : Legacy.sender) : Prop :=
  exists zone raddr,
    sock (Legacy.conn s)
    = Dialed {| Net.udp_IP := Legacy.ip s; Net.udp_Port := 0;
                Net.udp_Zone := zone |} raddr.

(** Kinds of events, for counting them in a log. *)
Definition is_CallNext (ev : Event) : bool :=
  match ev with CallNext => true | _ => false end.
Definition is_ConnClose (ev : Event) : bool :=
  match ev with ConnClose => true | _ => false end.
Definition is_SendApp (ev : Event) : bool :=
  match ev with SendApp _ _ _ => true | _ => false end.
Definition is_NewTicker (ev : Event) : bool :=
  match ev with NewTicker _ => true | _ => false end.
Definition is_TickerStop (ev : Event) : bool :=
  match ev with TickerStop => true | _ => false end.
Definition is_LogWarnf (ev : Event) : bool :=
  match ev with LogWarnf _ => true | _ => false end.

Definition count (f : Event -> bool) (l : list Event) : nat :=
  length (filter f l).

(** The sender the earlier [Serve] builds for a local address. *)
Definition sender_of (P : Decls) (ip : Net.IPAddr) : Legacy.sender :=
  {| Legacy.conn :=
       {| sock := Dialed (Legacy.local_of ip) (Legacy.remote_of ip);
          flags := FLAG_FROM_SERVER P;
          Version := None |};
     Legacy.ip := Net.ipa_IP ip |}.

(** The [*net.IPNet] addresses of an interface, tagged with its name. *)
Definition ipnets (name : string) (addrs : list Net.Addr) : list Net.IPAddr :=
  flat_map
    (fun addr =>
       match addr with
       | Net.IPNet ip _ => [{| Net.ipa_IP := ip; Net.ipa_Zone := name |}]
       | Net.OtherAddr _ => []
       end)
    addrs.

(** The addresses of the interfaces whose [Addrs] call succeeds. *)
Definition all_ipnets (interfaces : list Net.Interface) : list Net.IPAddr :=
  flat_map
    (fun i =>
       match Net.Addrs i with
       | Ok addrs => ipnets (Net.Name i) addrs
       | Err _ => []
       end)
    interfaces.


(** The search server that [Serve] starts for the identity [guid]. *)
Definition search_server (guid : list byte) (serverAddr : Net.TCPAddr)
  : Search.searchServer :=
  {| Search.GUID := copy (zero_bytes 12) guid;
     Search.ServerPort := Net.tcp_Port serverAddr |}.

(** A beacon as the wire format requires it, for a counter of width [w]. *)
Definition beacon_wellformed (w : UIntWidth) (b : BeaconMessage.t) : Prop :=
  length (BeaconMessage.GUID b) = 12%nat
  /\ length (BeaconMessage.ServerAddress b) = 16%nat
  /\ 0 <= BeaconMessage.ServerPort b < 65536
  /\ 0 <= BeaconMessage.BeaconSequenceID b < 2 ^ bits w.

(** Two beacons that differ at most in their sequence number and
    their server address. *)
Definition same_identity (b1 b2 : BeaconMessage.t) : Prop :=
  BeaconMessage.GUID b1 = BeaconMessage.GUID b2
  /\ BeaconMessage.ServerPort b1 = BeaconMessage.ServerPort b2
  /\ BeaconMessage.Protocol b1 = BeaconMessage.Protocol b2.

(** The ticker events of a log, in order. *)
Definition ticker_events (l : list Event) : list Event :=
  filter (fun ev => is_NewTicker ev || is_TickerStop ev) l.

(** The tickers that run after the events [l], [live] being those that
    ran before, in the order of their creation.  [None] when a ticker is
    stopped that is not running (it was never created or is stopped
    already), or when a number is given out twice. *)
Fixpoint running (l : list Tickers.TickerEvent) (live : list nat)
  : option (list nat) :=
  match l with
  | [] => Some live
  | Tickers.Created id _ :: l' =>
      if existsb (Nat.eqb id) live then None
      else running l' (live ++ [id])
  | Tickers.Stopped id :: l' =>
      if existsb (Nat.eqb id) live
      then running l' (filter (fun j => negb (Nat.eqb id j)) live)
      else None
  end.

End Expected.

(* ================================================================== *)
(** * Properties *)

(** ** Arithmetic of the counters *)

Lemma pow_bits_pos (w : UIntWidth) : 0 < 2 ^ bits w.
Proof. destruct w; reflexivity. Qed.

Lemma to_uint_idem (w : UIntWidth) (x : Z) :
  uint_incr w (to_uint w x) = to_uint w (x + 1).
Proof.
  unfold uint_incr, to_uint.
  rewrite Zplus_mod_idemp_l. reflexivity.
Qed.

Lemma to_uint_small (w : UIntWidth) (x : Z) :
  0 <= x < 2 ^ bits w -> to_uint w x = x.
Proof. intros H. unfold to_uint. apply Z.mod_small. exact H. Qed.

Lemma to_uint_one (w : UIntWidth) : to_uint w 1 = 1.
Proof. destruct w; reflexivity. Qed.

Lemma to_uint_wraps (w : UIntWidth) : to_uint w (2 ^ bits w) = 0.
Proof. destruct w; reflexivity. Qed.

Lemma to_int_idem (a : IntSize) (x : Z) :
  int_incr a (to_int a x) = to_int a (x + 1).
Proof.
  unfold int_incr, to_int.
  replace ((x + 2 ^ (int_bits a - 1)) mod 2 ^ int_bits a
           - 2 ^ (int_bits a - 1) + 1 + 2 ^ (int_bits a - 1))
    with ((x + 2 ^ (int_bits a - 1)) mod 2 ^ int_bits a + 1) by lia.
  rewrite Zplus_mod_idemp_l.
  replace (x + 2 ^ (int_bits a - 1) + 1) with (x + 1 + 2 ^ (int_bits a - 1)) by lia.
  reflexivity.
Qed.

Lemma to_int_small (a : IntSize) (x : Z) :
  0 <= x <= 15 -> to_int a x = x.
Proof.
  intros H. unfold to_int.
  rewrite Z.mod_small; [lia|].
  destruct a; cbn; lia.
Qed.

(** ** Logs *)

Lemma beacons_app (l1 l2 : list Event) :
  beacons (l1 ++ l2) = beacons l1 ++ beacons l2.
Proof.
  induction l1 as [|ev l1 IH]; [reflexivity|].
  destruct ev; cbn; try exact IH.
  destruct p; cbn; [f_equal|]; exact IH.
Qed.

Lemma responses_app (l1 l2 : list Event) :
  responses (l1 ++ l2) = responses l1 ++ responses l2.
Proof.
  induction l1 as [|ev l1 IH]; [reflexivity|].
  destruct ev; cbn; try exact IH.
  destruct p; cbn; [|f_equal]; exact IH.
Qed.

Lemma ticker_period_app (l1 l2 : list Event) (cur : option Z) :
  ticker_period (l1 ++ l2) cur = ticker_period l2 (ticker_period l1 cur).
Proof.
  revert cur. induction l1 as [|ev l1 IH]; intros cur; [reflexivity|].
  destruct ev; cbn; apply IH.
Qed.

(* ================================================================== *)
(** ** The search responder *)

Section Responder.

Import Proto Expected.

Variable P : Decls.

Lemma appendInstanceIDs_map (channels : list SearchRequestChannel.t) (ids : list Z) :
  Search.appendInstanceIDs channels ids
  = ids ++ map SearchRequestChannel.SearchInstanceID channels.
Proof.
  unfold Search.appendInstanceIDs.
  revert ids. induction channels as [|ch channels IH]; intros ids; cbn.
  - now rewrite app_nil_r.
  - rewrite IH, <- app_assoc. reflexivity.
Qed.

Lemma reply_nil c s laddr req :
  Search.reply P c req (Search.newResponse s laddr req) [] =
  if Search.reply_required P req
  then [SendApp c (APP_SEARCH_RESPONSE P)
                (Response (not_found_response s laddr req))]
  else [].
Proof.
  unfold Search.reply, Search.newResponse, not_found_response. cbn.
  rewrite appendInstanceIDs_map. reflexivity.
Qed.

Lemma reply_cons c s laddr req id ids :
  Search.reply P c req (Search.newResponse s laddr req) (id :: ids) =
  [SendApp c (APP_SEARCH_RESPONSE P)
           (Response (Search.newResponse s laddr req))].
Proof. reflexivity. Qed.

(** The four ways through [handleConnection]. *)
Lemma handleConnection_read_error s laddr conn e :
  Udpconn.Conn.Next conn = Err e ->
  Search.handleConnection P s laddr conn =
  ([CallNext; ConnClose] ++ (if is_EOF e then [] else [LogWarnf e]), e).
Proof. intros H. unfold Search.handleConnection. rewrite H. reflexivity. Qed.

Lemma handleConnection_other_command s laddr conn msg :
  Udpconn.Conn.Next conn = Ok msg ->
  MessageCommand msg <> APP_SEARCH_REQUEST P ->
  Search.handleConnection P s laddr conn = ([CallNext; ConnClose], io_EOF).
Proof.
  intros H Hc. unfold Search.handleConnection. rewrite H. cbn.
  destruct (Z.eqb_spec (MessageCommand msg) (APP_SEARCH_REQUEST P)) as [E|E];
    [contradiction|reflexivity].
Qed.

Lemma handleConnection_decode_error s laddr conn msg e :
  Udpconn.Conn.Next conn = Ok msg ->
  MessageCommand msg = APP_SEARCH_REQUEST P ->
  Decode msg = Err e ->
  Search.handleConnection P s laddr conn =
  ([CallNext; CallDecode; ConnClose] ++ (if is_EOF e then [] else [LogWarnf e]), e).
Proof.
  intros H Hc Hd. unfold Search.handleConnection. rewrite H. cbn.
  rewrite Hc, Z.eqb_refl, Hd. reflexivity.
Qed.

Lemma handleConnection_request s laddr conn msg req :
  Udpconn.Conn.Next conn = Ok msg ->
  MessageCommand msg = APP_SEARCH_REQUEST P ->
  Decode msg = Ok req ->
  Search.handleConnection P s laddr conn =
  ([CallNext; CallDecode; LogDebugf req]
     ++ Search.reply P (handler_conn P conn) req
                     (Search.newResponse s laddr req) Search.found
     ++ [ConnClose],
   io_EOF).
Proof.
  intros H Hc Hd. unfold Search.handleConnection. rewrite H. cbn.
  rewrite Hc, Z.eqb_refl, Hd. cbn.
  rewrite !app_nil_r. reflexivity.
Qed.

(** Whatever the datagram, a handler sends at most the not-found
    response of the request it decoded. *)
Lemma handleConnection_responses s laddr conn :
  responses (fst (Search.handleConnection P s laddr conn)) = [] \/
  exists msg req,
    Udpconn.Conn.Next conn = Ok msg /\
    MessageCommand msg = APP_SEARCH_REQUEST P /\
    Decode msg = Ok req /\
    Search.reply_required P req = true /\
    responses (fst (Search.handleConnection P s laddr conn))
    = [not_found_response s laddr req].
Proof.
  destruct (Udpconn.Conn.Next conn) as [msg|e] eqn:H.
  - destruct (Z.eq_dec (MessageCommand msg) (APP_SEARCH_REQUEST P)) as [Hc|Hc].
    + destruct (Decode msg) as [req|e] eqn:Hd.
      * rewrite (handleConnection_request s laddr conn msg req H Hc Hd).
        unfold Search.found. rewrite reply_nil.
        destruct (Search.reply_required P req) eqn:Hr.
        -- right. exists msg, req. repeat split; trivial.
        -- left. reflexivity.
      * left. rewrite (handleConnection_decode_error s laddr conn msg e H Hc Hd).
        cbn. destruct (is_EOF e); reflexivity.
    + left. rewrite (handleConnection_other_command s laddr conn msg H Hc). reflexivity.
  - left. rewrite (handleConnection_read_error s laddr conn e H).
    cbn. destruct (is_EOF e); reflexivity.
Qed.

End Responder.

Import Proto Expected.

Lemma copy_To16 (ip : Net.IP) :
  copy (zero_bytes 16) (Net.To16 ip)
  = if wellformed ip then Net.To16 ip else zero_bytes 16.
Proof.
  unfold wellformed, Net.IPv4len, Net.IPv6len.
  do 17 (destruct ip as [|? ip]; [reflexivity|]).
  cbn. destruct ip; reflexivity.
Qed.

Lemma handlers_accept_loop P s ln accepts h :
  In h (Search.handlers (Search.accept_loop P s ln accepts)) ->
  exists conn,
    In (Ok conn) accepts /\
    h = Search.handleConnection P s (Udpconn.Listener.LocalAddr ln) conn.
Proof.
  induction accepts as [|[conn|e] accepts IH]; cbn; intros H.
  - contradiction.
  - destruct H as [H|H].
    + exists conn. split; [now left | now symmetry].
    + destruct (IH H) as (conn' & Hin & Hh). exists conn'. split; [now right | exact Hh].
  - contradiction.
Qed.

(** C1. A handler that decoded a search request sends a search response
    if and only if the list of found channels is not empty or the
    reply-required bit of the request is set; otherwise it sends nothing.
    The first part is about lines 149-158 for any value [fnd] of the
    found list, the second part about the handler as it stands. *)
Theorem C1_response_iff_found_or_reply_required :
  forall (P : Decls) (s : Search.searchServer) (laddr : Net.UDPAddr)
         (conn : Udpconn.Conn.t) (msg : Message) (req : SearchRequest.t),
    Udpconn.Conn.Next conn = Ok msg ->
    MessageCommand msg = APP_SEARCH_REQUEST P ->
    Decode msg = Ok req ->
    (forall fnd : list Z,
        let out := Search.reply P (handler_conn P conn) req
                                (Search.newResponse s laddr req) fnd in
        (responses out <> [] <-> fnd <> [] \/ Search.reply_required P req = true)
        /\ (~ (fnd <> [] \/ Search.reply_required P req = true) -> out = []))
    /\ (let log := fst (Search.handleConnection P s laddr conn) in
        (responses log <> []
         <-> Search.found <> [] \/ Search.reply_required P req = true)
        /\ (~ (Search.found <> [] \/ Search.reply_required P req = true) ->
            log = request_log req [])).
Proof.
  intros P s laddr conn msg req HN HC HD. split.
  - intros [|id ids] out; subst out.
    + rewrite reply_nil.
      destruct (Search.reply_required P req); cbn; split.
      * split; [intros _; now right | intros _; discriminate].
      * intros H. exfalso. apply H. now right.
      * split; [intros H; now elim H | intros [H|H]; [now elim H | discriminate]].
      * reflexivity.
    + rewrite reply_cons. cbn. split.
      * split; [intros _; left; discriminate | intros _; discriminate].
      * intros H. exfalso. apply H. left. discriminate.
  - cbv zeta. rewrite (handleConnection_request P s laddr conn msg req HN HC HD).
    unfold Search.found. rewrite reply_nil. unfold request_log.
    destruct (Search.reply_required P req); cbn; split.
    + split; [intros _; now right | intros _; discriminate].
    + intros H. exfalso. apply H. now right.
    + split; [intros H; now elim H | intros [H|H]; [now elim H | discriminate]].
    + reflexivity.
Qed.

Lemma C1_witness :
  let conn := Sample.datagram 3 (Sample.request 0 [Sample.channelA; Sample.channelB]) in
  let log := fst (Search.handleConnection Sample.pva Sample.server
                    (Sample.udp Sample.ip_192_0_2_5 5076) conn) in
  responses log <> []
  <-> Search.found <> []
      \/ Search.reply_required Sample.pva
           (Sample.request 0 [Sample.channelA; Sample.channelB]) = true.
Proof.
  exact (proj1 (proj2 (@C1_response_iff_found_or_reply_required
    Sample.pva Sample.server (Sample.udp Sample.ip_192_0_2_5 5076)
    (Sample.datagram 3 (Sample.request 0 [Sample.channelA; Sample.channelB]))
    _ _ eq_refl eq_refl eq_refl))).
Defined.

(** C2. A search request with the reply-required bit set, nothing being
    found, is answered by exactly one response: it echoes the
    SearchSequenceID of the request, has Found = false, and lists the
    instance IDs of all requested channels (in the order of the request,
    hence the same set). *)
Theorem C2_not_found_reply :
  forall (P : Decls) (s : Search.searchServer) (laddr : Net.UDPAddr)
         (conn : Udpconn.Conn.t) (msg : Message) (req : SearchRequest.t),
    Udpconn.Conn.Next conn = Ok msg ->
    MessageCommand msg = APP_SEARCH_REQUEST P ->
    Decode msg = Ok req ->
    Search.reply_required P req = true ->
    exists r : SearchResponse.t,
      fst (Search.handleConnection P s laddr conn)
      = request_log req [SendApp (handler_conn P conn) (APP_SEARCH_RESPONSE P)
                                 (Response r)]
      /\ responses (fst (Search.handleConnection P s laddr conn)) = [r]
      /\ SearchResponse.SearchSequenceID r = SearchRequest.SearchSequenceID req
      /\ SearchResponse.Found r = false
      /\ SearchResponse.SearchInstanceIDs r
         = map SearchRequestChannel.SearchInstanceID (SearchRequest.Channels req)
      /\ (forall id : Z,
             In id (SearchResponse.SearchInstanceIDs r) <->
             exists ch, In ch (SearchRequest.Channels req)
                        /\ SearchRequestChannel.SearchInstanceID ch = id).
Proof.
  intros P s laddr conn msg req HN HC HD HR.
  exists (not_found_response s laddr req).
  rewrite (handleConnection_request P s laddr conn msg req HN HC HD).
  unfold Search.found. rewrite reply_nil, HR.
  repeat split; try reflexivity; cbn.
  - intros H. apply in_map_iff in H. destruct H as (ch & E & Hin). now exists ch.
  - intros (ch & Hin & E). apply in_map_iff. now exists ch.
Qed.

Lemma C2_witness :
  exists r : SearchResponse.t,
    responses (fst (Search.handleConnection Sample.pva Sample.server
                      (Sample.udp Sample.ip_192_0_2_5 5076)
                      (Sample.datagram 3
                         (Sample.request 1 [Sample.channelA; Sample.channelB]))))
    = [r]
    /\ SearchResponse.SearchSequenceID r = 42
    /\ SearchResponse.Found r = false
    /\ SearchResponse.SearchInstanceIDs r = [1; 2].
Proof.
  destruct (@C2_not_found_reply
    Sample.pva Sample.server (Sample.udp Sample.ip_192_0_2_5 5076)
    (Sample.datagram 3 (Sample.request 1 [Sample.channelA; Sample.channelB]))
    _ _ eq_refl eq_refl eq_refl eq_refl) as (r & _ & H1 & H2 & H3 & H4 & _).
  exists r. repeat split; assumption.
Defined.

(** X19. No handler ever reports a channel as found: whatever the
    datagram, every response a handler sends has Found = false and
    lists the instance IDs of all channels of the request it answers,
    in the order of the request. *)
Theorem X19_no_response_reports_a_channel_found :
  forall (P : Decls) (s : Search.searchServer) (laddr : Net.UDPAddr)
         (conn : Udpconn.Conn.t) (r : SearchResponse.t),
    In r (responses (fst (Search.handleConnection P s laddr conn))) ->
    SearchResponse.Found r = false
    /\ exists (msg : Message) (req : SearchRequest.t),
        Udpconn.Conn.Next conn = Ok msg
        /\ Decode msg = Ok req
        /\ SearchResponse.SearchInstanceIDs r
           = map SearchRequestChannel.SearchInstanceID (SearchRequest.Channels req).
Proof.
  intros P s laddr conn r Hin.
  destruct (handleConnection_responses P s laddr conn)
    as [E | (msg & req & HN & HC & HD & HR & E)];
    rewrite E in Hin; cbn in Hin.
  - contradiction.
  - destruct Hin as [<- | []]. split; [reflexivity|].
    exists msg, req. repeat split; assumption.
Qed.

Lemma X19_witness :
  SearchResponse.Found
    (not_found_response Sample.server (Sample.udp Sample.ip_192_0_2_5 5076)
       (Sample.request 1 [Sample.channelA; Sample.channelB])) = false.
Proof.
  refine (proj1 (@X19_no_response_reports_a_channel_found
    Sample.pva Sample.server (Sample.udp Sample.ip_192_0_2_5 5076)
    (Sample.datagram 3 (Sample.request 1 [Sample.channelA; Sample.channelB]))
    _ _)).
  cbn. left. reflexivity.
Defined.

(** C7. Every search response sent by a handler of the accept loop that
    [Serve] starts carries, as server address, the 16-byte form of the
    local address of the listener the request came in on, whatever the
    address [serverAddr] that [Serve] was configured with. *)
Theorem C7_response_carries_listener_address :
  forall (P : Decls) (env : Search.Env) (serverAddr : Net.TCPAddr)
         (ln : Udpconn.Listener.t) (run : Search.ServeRun)
         (h : list Event * error) (r : SearchResponse.t),
    Search.udpconn_Listen env = Ok ln ->
    Search.Serve_search P env serverAddr = Some run ->
    In h (Search.handlers run) ->
    In r (responses (fst h)) ->
    let ip := Net.udp_IP (Udpconn.Listener.LocalAddr ln) in
    SearchResponse.ServerAddress r = copy (zero_bytes 16) (Net.To16 ip)
    /\ SearchResponse.ServerAddress r
       = (if wellformed ip then Net.To16 ip else zero_bytes 16).
Proof.
  intros P env serverAddr ln run h r HL HS Hh Hr ip.
  assert (E : SearchResponse.ServerAddress r = copy (zero_bytes 16) (Net.To16 ip)).
  { unfold Search.Serve_search, Search.startup in HS.
    destruct (Search.rand_Read env) as [g|e]; cbn in HS; [|discriminate].
    rewrite HL in HS. cbn in HS.
    injection HS as <-. cbn in Hh.
    apply handlers_accept_loop in Hh. destruct Hh as (conn & _ & ->).
    match type of Hr with
    | In _ (responses (fst (Search.handleConnection _ ?s ?la _))) =>
        destruct (handleConnection_responses P s la conn)
          as [E | (msg & req & _ & _ & _ & _ & E)]
    end; rewrite E in Hr; cbn in Hr.
    - contradiction.
    - destruct Hr as [<- | []]. reflexivity. }
  split; [exact E|]. rewrite E. apply copy_To16.
Qed.

Lemma C7_witness :
  let req := Sample.request 1 [Sample.channelA; Sample.channelB] in
  SearchResponse.ServerAddress
    (not_found_response
       {| Search.GUID := Sample.guid; Search.ServerPort := 5075 |}
       (Sample.udp Sample.ip_192_0_2_5 5076) req)
  = Net.To16 Sample.ip_192_0_2_5.
Proof.
  cbv zeta.
  refine (proj2 (@C7_response_carries_listener_address
    Sample.pva
    (Sample.env [Ok (Sample.datagram 3
                       (Sample.request 1 [Sample.channelA; Sample.channelB]))])
    (Sample.tcp Sample.ip_10_0_0_1)
    _ _ _ _ eq_refl eq_refl _ _)).
  - cbn. left. reflexivity.
  - cbn. left. reflexivity.
Defined.

(** C9. A message whose command is not the search request: the handler
    decodes nothing, sends nothing, logs nothing, closes the
    pseudo-connection and returns [io.EOF], the value that the callers
    do not report as an error. *)
Theorem C9_other_command_is_dropped :
  forall (P : Decls) (s : Search.searchServer) (laddr : Net.UDPAddr)
         (conn : Udpconn.Conn.t) (msg : Message),
    Udpconn.Conn.Next conn = Ok msg ->
    MessageCommand msg <> APP_SEARCH_REQUEST P ->
    Search.handleConnection P s laddr conn = ([CallNext; ConnClose], io_EOF)
    /\ responses (fst (Search.handleConnection P s laddr conn)) = []
    /\ is_EOF (snd (Search.handleConnection P s laddr conn)) = true.
Proof.
  intros P s laddr conn msg HN HC.
  rewrite (handleConnection_other_command P s laddr conn msg HN HC).
  repeat split.
Qed.

Lemma C9_witness :
  Search.handleConnection Sample.pva Sample.server
    (Sample.udp Sample.ip_192_0_2_5 5076)
    (Sample.datagram 0 (Sample.request 1 [Sample.channelA]))
  = ([CallNext; ConnClose], io_EOF).
Proof.
  refine (proj1 (@C9_other_command_is_dropped
    Sample.pva Sample.server (Sample.udp Sample.ip_192_0_2_5 5076)
    (Sample.datagram 0 (Sample.request 1 [Sample.channelA])) _ eq_refl _)).
  cbn. discriminate.
Defined.

(** C10. A search request without channels and with the reply-required
    bit set is answered: one response, Found = false, no instance ID. *)
Theorem C10_empty_request_is_answered :
  forall (P : Decls) (s : Search.searchServer) (laddr : Net.UDPAddr)
         (conn : Udpconn.Conn.t) (msg : Message) (req : SearchRequest.t),
    Udpconn.Conn.Next conn = Ok msg ->
    MessageCommand msg = APP_SEARCH_REQUEST P ->
    Decode msg = Ok req ->
    SearchRequest.Channels req = [] ->
    Search.reply_required P req = true ->
    exists r : SearchResponse.t,
      responses (fst (Search.handleConnection P s laddr conn)) = [r]
      /\ SearchResponse.Found r = false
      /\ SearchResponse.SearchInstanceIDs r = [].
Proof.
  intros P s laddr conn msg req HN HC HD HE HR.
  exists (not_found_response s laddr req).
  rewrite (handleConnection_request P s laddr conn msg req HN HC HD).
  unfold Search.found. rewrite reply_nil, HR. cbn.
  rewrite HE. repeat split.
Qed.

Lemma C10_witness :
  exists r : SearchResponse.t,
    responses (fst (Search.handleConnection Sample.pva Sample.server
                      (Sample.udp Sample.ip_192_0_2_5 5076)
                      (Sample.datagram 3 (Sample.request 1 []))))
    = [r]
    /\ SearchResponse.Found r = false
    /\ SearchResponse.SearchInstanceIDs r = [].
Proof.
  exact (@C10_empty_request_is_answered
    Sample.pva Sample.server (Sample.udp Sample.ip_192_0_2_5 5076)
    (Sample.datagram 3 (Sample.request 1 [])) _ _
    eq_refl eq_refl eq_refl eq_refl eq_refl).
Defined.

(* ================================================================== *)
(** ** The beacon scheduler *)

Lemma startup_events_quiet (l : list Event) :
  forallb startup_event l = true ->
  beacons l = [] /\ forall cur, ticker_period l cur = cur.
Proof.
  induction l as [|ev l IH]; cbn; [now split|].
  intros H. apply andb_true_iff in H. destruct H as [Hev Hl].
  destruct (IH Hl) as [Hb Ht].
  destruct ev; cbn in *; try discriminate; split; auto.
Qed.

Lemma sequence_numbers_S (w : UIntWidth) (copies n : nat) :
  sequence_numbers w copies (S n)
  = sequence_numbers w copies n ++ repeat (to_uint w (Z.of_nat (S n))) copies.
Proof.
  unfold sequence_numbers.
  rewrite seq_S, flat_map_app. cbn [flat_map].
  now rewrite app_nil_r.
Qed.

Lemma sequence_numbers_one (w : UIntWidth) (n : nat) :
  sequence_numbers w 1 n = map (fun k => to_uint w (Z.of_nat k)) (seq 1 n).
Proof.
  unfold sequence_numbers. generalize (seq 1 n) as l.
  induction l as [|k l IH]; cbn; [reflexivity|].
  now f_equal.
Qed.

Lemma length_sequence_numbers (w : UIntWidth) (copies n : nat) :
  length (sequence_numbers w copies n) = (n * copies)%nat.
Proof.
  induction n as [|n IH]; [reflexivity|].
  rewrite sequence_numbers_S, length_app, IH, repeat_length. lia.
Qed.

(** The sequence numbers sent from a counter that stands at [to_uint w m]. *)
Lemma sequence_numbers_from (w : UIntWidth) (copies n m : nat) :
  flat_map (fun k => repeat (to_uint w (Z.of_nat (m + k))) copies) (seq 1 n)
  = flat_map (fun k => repeat (to_uint w (Z.of_nat k)) copies) (seq (S m) n).
Proof.
  replace (S m) with (m + 1)%nat by lia.
  generalize 1%nat.
  induction n as [|n IH]; intros j; cbn; [reflexivity|].
  f_equal. rewrite (IH (S j)). now rewrite Nat.add_succ_r.
Qed.

Section SearchLoop.

Variable P : Decls.
Variable a : IntSize.
Variable c : Connection.

Let w := BeaconSequenceID_width P.

Lemma Search_on_tick_beacons (st : Search.LoopState) :
  beacons (snd (Search.on_tick P a c st))
  = [Search.beacon (fst (Search.on_tick P a c st))].
Proof.
  unfold Search.on_tick.
  destruct (int_incr a (Search.i st) =? Search.startupCount); reflexivity.
Qed.

Lemma Search_on_tick_state (st : Search.LoopState) :
  let st' := fst (Search.on_tick P a c st) in
  BeaconMessage.BeaconSequenceID (Search.beacon st')
  = uint_incr w (BeaconMessage.BeaconSequenceID (Search.beacon st))
  /\ BeaconMessage.ServerAddress (Search.beacon st')
     = BeaconMessage.ServerAddress (Search.beacon st)
  /\ Search.i st' = int_incr a (Search.i st).
Proof.
  unfold Search.on_tick.
  destruct (int_incr a (Search.i st) =? Search.startupCount); cbn; auto.
Qed.

Lemma Search_loop_tick (sel : list Select) (st : Search.LoopState) :
  Search.loop P a c (tick :: sel) st
  = (snd (Search.on_tick P a c st)
       ++ fst (Search.loop P a c sel (fst (Search.on_tick P a c st))),
     snd (Search.loop P a c sel (fst (Search.on_tick P a c st)))).
Proof.
  cbn [Search.loop].
  destruct (Search.on_tick P a c st) as [st' evs]. cbn [fst snd].
  destruct (Search.loop P a c sel st') as [l r]. reflexivity.
Qed.

Lemma Search_loop_sequence (n m : nat) (st : Search.LoopState) :
  BeaconMessage.BeaconSequenceID (Search.beacon st) = to_uint w (Z.of_nat m) ->
  map BeaconMessage.BeaconSequenceID
      (beacons (fst (Search.loop P a c (repeat tick n) st)))
  = flat_map (fun k => repeat (to_uint w (Z.of_nat k)) 1) (seq (S m) n).
Proof.
  revert m st. induction n as [|n IH]; intros m st Hst; [reflexivity|].
  cbn [repeat]. rewrite Search_loop_tick. cbn [fst].
  rewrite beacons_app, map_app, Search_on_tick_beacons.
  destruct (Search_on_tick_state st) as (Hseq & _ & _).
  assert (E : BeaconMessage.BeaconSequenceID
                (Search.beacon (fst (Search.on_tick P a c st)))
              = to_uint w (Z.of_nat (S m))).
  { rewrite Hseq, Hst, to_uint_idem. f_equal. lia. }
  rewrite (IH (S m) _ E). cbn. now rewrite E.
Qed.

Lemma Search_loop_address (sel : list Select) (st : Search.LoopState) :
  Forall (fun b => BeaconMessage.ServerAddress b
                   = BeaconMessage.ServerAddress (Search.beacon st))
         (beacons (fst (Search.loop P a c sel st))).
Proof.
  revert st. induction sel as [|[|e] sel IH]; intros st.
  - constructor.
  - rewrite Search_loop_tick. cbn [fst].
    rewrite beacons_app, Search_on_tick_beacons.
    destruct (Search_on_tick_state st) as (_ & Haddr & _).
    cbn. constructor; [exact Haddr|].
    rewrite <- Haddr. apply IH.
  - constructor.
Qed.

Lemma Search_loop_period (n m : nat) (st : Search.LoopState) :
  Search.i st = to_int a (Z.of_nat m) ->
  ticker_period (fst (Search.loop P a c (repeat tick n) st))
                (Some (period_after m))
  = Some (period_after (m + n)).
Proof.
  revert m st. induction n as [|n IH]; intros m st Hst.
  - cbn. now rewrite Nat.add_0_r.
  - cbn [repeat]. rewrite Search_loop_tick. cbn [fst].
    rewrite ticker_period_app.
    destruct (Search_on_tick_state st) as (_ & _ & Hi).
    assert (E : Search.i (fst (Search.on_tick P a c st))
                = to_int a (Z.of_nat (S m))).
    { rewrite Hi, Hst, to_int_idem. f_equal. lia. }
    replace (m + S n)%nat with (S m + n)%nat by lia.
    rewrite <- (IH (S m) _ E). f_equal.
    clear IH E Hi.
    unfold Search.on_tick. rewrite Hst, to_int_idem.
    replace (Z.of_nat m + 1) with (Z.of_nat (S m)) by lia.
    unfold period_after.
    destruct (Z.eqb_spec (to_int a (Z.of_nat (S m))) Search.startupCount) as [E15|E15];
      cbn [snd ticker_period]; destruct (Nat.ltb_spec (S m) 15) as [Hlt|Hge].
    + rewrite to_int_small in E15 by lia. unfold Search.startupCount in E15. lia.
    + reflexivity.
    + destruct (Nat.ltb_spec m 15); [reflexivity | lia].
    + destruct (Nat.ltb_spec m 15) as [Hm|Hm]; [|reflexivity].
      exfalso. apply E15. rewrite to_int_small by lia.
      unfold Search.startupCount. lia.
Qed.

End SearchLoop.

Section LegacyLoop.

Variable P : Decls.
Variable a : IntSize.
Variable senders : list Legacy.sender.

Let w := BeaconSequenceID_width P.

Lemma beacons_sends (pkt : BeaconMessage.t) (l : list Legacy.sender) :
  beacons (flat_map (fun s => Legacy.send P s pkt) l) = map (sent_copy pkt) l.
Proof.
  induction l as [|s l IH]; cbn; [reflexivity|]. now rewrite IH.
Qed.

Lemma Legacy_on_tick_beacons (st : Legacy.LoopState) :
  beacons (snd (Legacy.on_tick P a senders st))
  = map (sent_copy (Legacy.beacon (fst (Legacy.on_tick P a senders st)))) senders.
Proof.
  unfold Legacy.on_tick.
  destruct (int_incr a (Legacy.i st) =? Legacy.startupCount); cbn [fst snd Legacy.beacon].
  - rewrite beacons_app, beacons_sends. cbn. apply app_nil_r.
  - apply beacons_sends.
Qed.

Lemma Legacy_on_tick_state (st : Legacy.LoopState) :
  let st' := fst (Legacy.on_tick P a senders st) in
  BeaconMessage.BeaconSequenceID (Legacy.beacon st')
  = uint_incr w (BeaconMessage.BeaconSequenceID (Legacy.beacon st))
  /\ BeaconMessage.ServerAddress (Legacy.beacon st')
     = BeaconMessage.ServerAddress (Legacy.beacon st)
  /\ Legacy.i st' = int_incr a (Legacy.i st).
Proof.
  unfold Legacy.on_tick.
  destruct (int_incr a (Legacy.i st) =? Legacy.startupCount); cbn; auto.
Qed.

Lemma Legacy_loop_tick (sel : list Select) (st : Legacy.LoopState) :
  Legacy.loop P a senders (tick :: sel) st
  = (snd (Legacy.on_tick P a senders st)
       ++ fst (Legacy.loop P a senders sel (fst (Legacy.on_tick P a senders st))),
     snd (Legacy.loop P a senders sel (fst (Legacy.on_tick P a senders st)))).
Proof.
  cbn [Legacy.loop].
  destruct (Legacy.on_tick P a senders st) as [st' evs]. cbn [fst snd].
  destruct (Legacy.loop P a senders sel st') as [l r]. reflexivity.
Qed.

Lemma Legacy_loop_sequence (n m : nat) (st : Legacy.LoopState) :
  BeaconMessage.BeaconSequenceID (Legacy.beacon st) = to_uint w (Z.of_nat m) ->
  map BeaconMessage.BeaconSequenceID
      (beacons (fst (Legacy.loop P a senders (repeat tick n) st)))
  = flat_map (fun k => repeat (to_uint w (Z.of_nat k)) (length senders))
             (seq (S m) n).
Proof.
  revert m st. induction n as [|n IH]; intros m st Hst; [reflexivity|].
  cbn [repeat]. rewrite Legacy_loop_tick. cbn [fst].
  rewrite beacons_app, map_app, Legacy_on_tick_beacons.
  destruct (Legacy_on_tick_state st) as (Hseq & _ & _).
  assert (E : BeaconMessage.BeaconSequenceID
                (Legacy.beacon (fst (Legacy.on_tick P a senders st)))
              = to_uint w (Z.of_nat (S m))).
  { rewrite Hseq, Hst, to_uint_idem. f_equal. lia. }
  rewrite (IH (S m) _ E). cbn [seq flat_map]. f_equal.
  rewrite map_map. cbn. rewrite E.
  clear. induction senders as [|s l IHl]; cbn; [reflexivity | now f_equal].
Qed.

Lemma Legacy_loop_period (n m : nat) (st : Legacy.LoopState) :
  Legacy.i st = to_int a (Z.of_nat m) ->
  ticker_period (fst (Legacy.loop P a senders (repeat tick n) st))
                (Some (period_after m))
  = Some (period_after (m + n)).
Proof.
  revert m st. induction n as [|n IH]; intros m st Hst.
  - cbn. now rewrite Nat.add_0_r.
  - cbn [repeat]. rewrite Legacy_loop_tick. cbn [fst].
    rewrite ticker_period_app.
    destruct (Legacy_on_tick_state st) as (_ & _ & Hi).
    assert (E : Legacy.i (fst (Legacy.on_tick P a senders st))
                = to_int a (Z.of_nat (S m))).
    { rewrite Hi, Hst, to_int_idem. f_equal. lia. }
    replace (m + S n)%nat with (S m + n)%nat by lia.
    rewrite <- (IH (S m) _ E). f_equal.
    clear IH E Hi.
    assert (Hq : forall pkt cur,
               ticker_period (flat_map (fun s => Legacy.send P s pkt) senders) cur = cur).
    { intros pkt cur. induction senders as [|s l IHl]; cbn; auto. }
    unfold Legacy.on_tick. rewrite Hst, to_int_idem.
    replace (Z.of_nat m + 1) with (Z.of_nat (S m)) by lia.
    unfold period_after.
    destruct (Z.eqb_spec (to_int a (Z.of_nat (S m))) Legacy.startupCount) as [E15|E15];
      cbn [snd]; rewrite ?ticker_period_app, Hq; cbn [ticker_period];
      destruct (Nat.ltb_spec (S m) 15) as [Hlt|Hge].
    + rewrite to_int_small in E15 by lia. unfold Legacy.startupCount in E15. lia.
    + reflexivity.
    + destruct (Nat.ltb_spec m 15); [reflexivity | lia].
    + destruct (Nat.ltb_spec m 15) as [Hm|Hm]; [|reflexivity].
      exfalso. apply E15. rewrite to_int_small by lia.
      unfold Legacy.startupCount. lia.
Qed.

End LegacyLoop.

(** ** The start of [Serve] *)

Lemma quiet_bind {A B} (m : M A) (k : A -> M B) :
  forallb startup_event (fst m) = true ->
  (forall x, forallb startup_event (fst (k x)) = true) ->
  forallb startup_event (fst (bind m k)) = true.
Proof.
  intros Hm Hk. destruct m as [l [x|e]]; cbn in *; [|exact Hm].
  specialize (Hk x). destruct (k x) as [l' r]. cbn in *.
  now rewrite forallb_app, Hm, Hk.
Qed.

Lemma Search_startup_quiet env serverAddr :
  forallb startup_event (fst (Search.startup env serverAddr)) = true.
Proof.
  unfold Search.startup.
  apply quiet_bind; [reflexivity|]. intros guid.
  apply quiet_bind; [reflexivity|]. intros ln. reflexivity.
Qed.

Lemma Search_startup_ok env serverAddr l b ln :
  Search.startup env serverAddr = (l, Ok (b, ln)) ->
  BeaconMessage.BeaconSequenceID b = 0
  /\ BeaconMessage.ServerAddress b = search_beacon_address serverAddr
  /\ Search.udpconn_Listen env = Ok ln.
Proof.
  unfold Search.startup, search_beacon_address, bind, call, emit, ret.
  destruct (Search.rand_Read env) as [g|e]; [|discriminate].
  destruct (Search.udpconn_Listen env) as [ln'|e]; [|discriminate].
  intros H. injection H as _ <- <-.
  destruct (Nat.ltb 0 (length (Net.tcp_IP serverAddr))); repeat split.
Qed.

Lemma Search_Serve_ok P env serverAddr sel l b ln :
  Search.startup env serverAddr = (l, Ok (b, ln)) ->
  Search.Serve P env serverAddr sel
  = (l ++ NewTicker Search.startupInterval
       :: fst (Search.loop P (Search.arch env) (Search.beaconSender P ln) sel
                 {| Search.beacon := b; Search.i := 0;
                    Search.ticker := Search.startupInterval |}),
     snd (Search.loop P (Search.arch env) (Search.beaconSender P ln) sel
            {| Search.beacon := b; Search.i := 0;
               Search.ticker := Search.startupInterval |})).
Proof.
  intros H. unfold Search.Serve. rewrite H.
  destruct (Search.loop _ _ _ _ _) as [l' r]. reflexivity.
Qed.

Lemma Search_Serve_beacons P env serverAddr sel l b ln :
  Search.startup env serverAddr = (l, Ok (b, ln)) ->
  beacons (fst (Search.Serve P env serverAddr sel))
  = beacons (fst (Search.loop P (Search.arch env) (Search.beaconSender P ln) sel
                    {| Search.beacon := b; Search.i := 0;
                       Search.ticker := Search.startupInterval |})).
Proof.
  intros H. rewrite (Search_Serve_ok P _ _ sel _ _ _ H). cbn [fst].
  rewrite beacons_app.
  pose proof (Search_startup_quiet env serverAddr) as Hq. rewrite H in Hq. cbn [fst] in Hq.
  destruct (startup_events_quiet _ Hq) as [-> _]. reflexivity.
Qed.

Lemma Legacy_interfaces_loop_quiet interfaces ips :
  forallb startup_event (fst (Legacy.interfaces_loop interfaces ips)) = true.
Proof.
  revert ips. induction interfaces as [|i rest IH]; intros ips; cbn [Legacy.interfaces_loop].
  - reflexivity.
  - apply quiet_bind; [reflexivity|]. intros addrs. apply IH.
Qed.

Lemma Legacy_local_ips_quiet env serverAddr :
  forallb startup_event (fst (Legacy.local_ips env serverAddr)) = true.
Proof.
  unfold Legacy.local_ips.
  destruct (_ || _); [|reflexivity].
  apply quiet_bind; [reflexivity|]. intros ifs. apply Legacy_interfaces_loop_quiet.
Qed.

Lemma Legacy_dial_loop_quiet P env ips senders :
  forallb startup_event (fst (Legacy.dial_loop P env ips senders)) = true.
Proof.
  revert senders. induction ips as [|ip rest IH]; intros senders; cbn [Legacy.dial_loop].
  - reflexivity.
  - apply quiet_bind; [reflexivity|]. intros _. apply IH.
Qed.

Lemma Legacy_startup_quiet P env serverAddr :
  forallb startup_event (fst (Legacy.startup P env serverAddr)) = true.
Proof.
  unfold Legacy.startup.
  apply quiet_bind; [reflexivity|]. intros guid.
  apply quiet_bind; [apply Legacy_local_ips_quiet|]. intros ips.
  apply quiet_bind; [reflexivity|]. intros _.
  apply quiet_bind; [apply Legacy_dial_loop_quiet|]. intros senders. reflexivity.
Qed.

Lemma Legacy_startup_ok P env serverAddr l b senders :
  Legacy.startup P env serverAddr = (l, Ok (b, senders)) ->
  BeaconMessage.BeaconSequenceID b = 0
  /\ BeaconMessage.ServerAddress b = zero_bytes 16.
Proof.
  unfold Legacy.startup, bind, call, emit, ret.
  destruct (Legacy.rand_Read env) as [g|e]; [|discriminate].
  destruct (Legacy.local_ips env serverAddr) as [l1 [ips|e]]; [|discriminate].
  destruct (Legacy.dial_loop P env ips []) as [l2 [ss|e]]; [|discriminate].
  intros H. injection H as _ <- _. repeat split.
Qed.

Lemma Legacy_Serve_ok P env serverAddr sel l b senders :
  Legacy.startup P env serverAddr = (l, Ok (b, senders)) ->
  Legacy.Serve P env serverAddr sel
  = (l ++ NewTicker Legacy.startupInterval
       :: fst (Legacy.loop P (Legacy.arch env) senders sel
                 {| Legacy.beacon := b; Legacy.i := 0;
                    Legacy.ticker := Legacy.startupInterval |}),
     snd (Legacy.loop P (Legacy.arch env) senders sel
            {| Legacy.beacon := b; Legacy.i := 0;
               Legacy.ticker := Legacy.startupInterval |})).
Proof.
  intros H. unfold Legacy.Serve. rewrite H.
  destruct (Legacy.loop _ _ _ _ _) as [l' r]. reflexivity.
Qed.

Lemma Legacy_Serve_beacons P env serverAddr sel l b senders :
  Legacy.startup P env serverAddr = (l, Ok (b, senders)) ->
  beacons (fst (Legacy.Serve P env serverAddr sel))
  = beacons (fst (Legacy.loop P (Legacy.arch env) senders sel
                    {| Legacy.beacon := b; Legacy.i := 0;
                       Legacy.ticker := Legacy.startupInterval |})).
Proof.
  intros H. rewrite (Legacy_Serve_ok P _ _ sel _ _ _ H). cbn [fst].
  rewrite beacons_app.
  pose proof (Legacy_startup_quiet P env serverAddr) as Hq. rewrite H in Hq. cbn [fst] in Hq.
  destruct (startup_events_quiet _ Hq) as [-> _]. reflexivity.
Qed.

(** ** Claims about the beacon scheduler *)

(** C4 as stated fails once the counter wraps: with a one-byte counter
    the beacon of tick 255 carries 255 and the beacon of tick 256
    carries 0, which is not 255 + 1. *)
Lemma C4_sequence_wraps_counterexample :
  let ids :=
    map BeaconMessage.BeaconSequenceID
        (beacons (fst (Search.Serve Sample.pva (Sample.env [])
                         (Sample.tcp Sample.ip_192_0_2_5) (repeat tick 256)))) in
  nth_error ids 254 = Some 255
  /\ nth_error ids 255 = Some 0
  /\ 0 <> 255 + 1.
Proof. vm_compute. repeat split; discriminate. Qed.

(** C4, amended.  The beacons of the k-th tick carry the sequence number
    k modulo 2^w, w being the width of the unsigned counter: 1 on the
    first tick, one more on every tick, and 0 again after 2^w - 1.  The
    counter moves once per tick whatever the number of sockets, and all
    beacons of one tick carry the same number: [Search.Serve] hands one
    beacon per tick to its broadcast socket, the earlier [Serve] one
    copy per sender. *)
Theorem C4_beacon_sequence_numbers :
  forall (P : Decls) (n : nat)
         (envS : Search.Env) (addrS : Net.TCPAddr) (lS : list Event)
         (bS : BeaconMessage.t) (ln : Udpconn.Listener.t)
         (envL : Legacy.Env) (addrL : Net.TCPAddr) (lL : list Event)
         (bL : BeaconMessage.t) (senders : list Legacy.sender),
    Search.startup envS addrS = (lS, Ok (bS, ln)) ->
    Legacy.startup P envL addrL = (lL, Ok (bL, senders)) ->
    let w := BeaconSequenceID_width P in
    map BeaconMessage.BeaconSequenceID
        (beacons (fst (Search.Serve P envS addrS (repeat tick n))))
    = map (fun k => to_uint w (Z.of_nat k)) (seq 1 n)
    /\ map BeaconMessage.BeaconSequenceID
           (beacons (fst (Legacy.Serve P envL addrL (repeat tick n))))
       = flat_map (fun k => repeat (to_uint w (Z.of_nat k)) (length senders))
                  (seq 1 n)
    /\ hd_error (map BeaconMessage.BeaconSequenceID
                     (beacons (fst (Search.Serve P envS addrS (repeat tick (S n))))))
       = Some 1
    /\ firstn (length senders)
              (map BeaconMessage.BeaconSequenceID
                   (beacons (fst (Legacy.Serve P envL addrL (repeat tick (S n))))))
       = repeat 1 (length senders).
Proof.
  intros P n envS addrS lS bS ln envL addrL lL bL senders HS HL w.
  destruct (Search_startup_ok _ _ _ _ _ HS) as (HS0 & _ & _).
  destruct (Legacy_startup_ok _ _ _ _ _ _ HL) as (HL0 & _).
  assert (ES : forall m,
             map BeaconMessage.BeaconSequenceID
                 (beacons (fst (Search.Serve P envS addrS (repeat tick m))))
             = map (fun k => to_uint w (Z.of_nat k)) (seq 1 m)).
  { intros m. rewrite (Search_Serve_beacons P _ _ _ _ _ _ HS).
    rewrite (Search_loop_sequence P _ _ m 0%nat); [|exact HS0].
    apply (sequence_numbers_one w m). }
  assert (EL : forall m,
             map BeaconMessage.BeaconSequenceID
                 (beacons (fst (Legacy.Serve P envL addrL (repeat tick m))))
             = flat_map (fun k => repeat (to_uint w (Z.of_nat k)) (length senders))
                        (seq 1 m)).
  { intros m. rewrite (Legacy_Serve_beacons P _ _ _ _ _ _ HL).
    apply (Legacy_loop_sequence P _ _ m 0%nat). exact HL0. }
  repeat split.
  - apply ES.
  - apply EL.
  - rewrite ES. cbn [seq map hd_error]. f_equal. apply to_uint_one.
  - rewrite EL. cbn [seq flat_map].
    change (Z.of_nat 1) with 1. rewrite to_uint_one.
    rewrite firstn_app, repeat_length, Nat.sub_diag, firstn_O, app_nil_r.
    rewrite <- (repeat_length 1 (length senders)) at 1. apply firstn_all.
Qed.

Lemma C4_witness :
  map BeaconMessage.BeaconSequenceID
      (beacons (fst (Search.Serve Sample.pva (Sample.env [])
                       (Sample.tcp Sample.ip_192_0_2_5) (repeat tick 3))))
  = [1; 2; 3]
  /\ map BeaconMessage.BeaconSequenceID
         (beacons (fst (Legacy.Serve Sample.pva Sample.legacy_env
                          (Sample.tcp []) (repeat tick 3))))
     = [1; 1; 2; 2; 3; 3].
Proof.
  destruct (@C4_beacon_sequence_numbers Sample.pva 3
              (Sample.env []) (Sample.tcp Sample.ip_192_0_2_5) _ _ _
              Sample.legacy_env (Sample.tcp []) _ _ _ eq_refl eq_refl)
    as (H1 & H2 & _).
  split; [exact H1 | exact H2].
Defined.

(** The counter wraps whatever its width: the beacon of tick 2^w
    carries 0. *)
Lemma beacon_sequence_wraps :
  forall (P : Decls) (env : Search.Env) (serverAddr : Net.TCPAddr)
         (l : list Event) (b : BeaconMessage.t) (ln : Udpconn.Listener.t),
    Search.startup env serverAddr = (l, Ok (b, ln)) ->
    let w := BeaconSequenceID_width P in
    last (map BeaconMessage.BeaconSequenceID
              (beacons (fst (Search.Serve P env serverAddr
                               (repeat tick (Z.to_nat (2 ^ bits w)))))))
         1
    = 0.
Proof.
  intros P env serverAddr l b ln H w.
  destruct (Search_startup_ok _ _ _ _ _ H) as (H0 & _ & _).
  rewrite (Search_Serve_beacons P _ _ _ _ _ _ H).
  rewrite (Search_loop_sequence P _ _ _ 0%nat); [|exact H0].
  pose proof (pow_bits_pos w) as Hpos.
  replace (Z.to_nat (2 ^ bits w)) with (S (Z.to_nat (2 ^ bits w - 1)))
    by (rewrite <- Z2Nat.inj_succ by lia; f_equal; lia).
  pose proof (sequence_numbers_S w 1 (Z.to_nat (2 ^ bits w - 1))) as E.
  unfold sequence_numbers in E.
  change (BeaconSequenceID_width P) with w. rewrite E. clear E. cbn [repeat].
  rewrite last_last.
  rewrite <- Z2Nat.inj_succ by lia.
  rewrite Z2Nat.id by lia.
  replace (Z.succ (2 ^ bits w - 1)) with (2 ^ bits w) by lia.
  apply to_uint_wraps.
Qed.

Lemma Search_loop_running P a c n st :
  snd (Search.loop P a c (repeat tick n) st) = None.
Proof.
  revert st. induction n as [|m IH]; intros st; [reflexivity|].
  cbn [repeat]. rewrite Search_loop_tick. cbn [snd]. apply IH.
Qed.

Lemma Legacy_loop_running P a senders n st :
  snd (Legacy.loop P a senders (repeat tick n) st) = None.
Proof.
  revert st. induction n as [|m IH]; intros st; [reflexivity|].
  cbn [repeat]. rewrite Legacy_loop_tick. cbn [snd]. apply IH.
Qed.

(** C5. After n ticks the ticker in use has a period of one second
    when n < 15 and of five seconds when n >= 15: the ticker is replaced
    while tick 15 is handled.  Every tick received is handled, once: n
    ticks give n batches of beacons, and [Serve] is back in its [select]. *)
Theorem C5_ticker_period :
  forall (P : Decls) (n : nat)
         (envS : Search.Env) (addrS : Net.TCPAddr) (lS : list Event)
         (bS : BeaconMessage.t) (ln : Udpconn.Listener.t)
         (envL : Legacy.Env) (addrL : Net.TCPAddr) (lL : list Event)
         (bL : BeaconMessage.t) (senders : list Legacy.sender),
    Search.startup envS addrS = (lS, Ok (bS, ln)) ->
    Legacy.startup P envL addrL = (lL, Ok (bL, senders)) ->
    let period := if Nat.ltb n 15 then Time.Second else 5 * Time.Second in
    ticker_period (fst (Search.Serve P envS addrS (repeat tick n))) None
    = Some period
    /\ length (beacons (fst (Search.Serve P envS addrS (repeat tick n)))) = n
    /\ snd (Search.Serve P envS addrS (repeat tick n)) = None
    /\ ticker_period (fst (Legacy.Serve P envL addrL (repeat tick n))) None
       = Some period
    /\ length (beacons (fst (Legacy.Serve P envL addrL (repeat tick n))))
       = (n * length senders)%nat
    /\ snd (Legacy.Serve P envL addrL (repeat tick n)) = None.
Proof.
  intros P n envS addrS lS bS ln envL addrL lL bL senders HS HL period.
  repeat split.
  - rewrite (Search_Serve_ok P _ _ _ _ _ _ HS). cbn [fst].
    rewrite ticker_period_app. cbn [ticker_period].
    apply (Search_loop_period P _ _ n 0%nat).
    cbn [Search.i]. change (Z.of_nat 0) with 0. symmetry. apply to_int_small. lia.
  - rewrite <- (length_map BeaconMessage.BeaconSequenceID).
    rewrite (Search_Serve_beacons P _ _ _ _ _ _ HS).
    destruct (Search_startup_ok _ _ _ _ _ HS) as (H0 & _ & _).
    rewrite (Search_loop_sequence P _ _ n 0%nat); [|exact H0].
    pose proof (length_sequence_numbers (BeaconSequenceID_width P) 1 n) as E.
    unfold sequence_numbers in E. rewrite E. lia.
  - rewrite (Search_Serve_ok P _ _ _ _ _ _ HS). apply Search_loop_running.
  - rewrite (Legacy_Serve_ok P _ _ _ _ _ _ HL). cbn [fst].
    rewrite ticker_period_app. cbn [ticker_period].
    apply (Legacy_loop_period P _ _ n 0%nat).
    cbn [Legacy.i]. change (Z.of_nat 0) with 0. symmetry. apply to_int_small. lia.
  - rewrite <- (length_map BeaconMessage.BeaconSequenceID).
    rewrite (Legacy_Serve_beacons P _ _ _ _ _ _ HL).
    destruct (Legacy_startup_ok _ _ _ _ _ _ HL) as (H0 & _).
    rewrite (Legacy_loop_sequence P _ _ n 0%nat); [|exact H0].
    apply (length_sequence_numbers _ (length senders) n).
  - rewrite (Legacy_Serve_ok P _ _ _ _ _ _ HL). apply Legacy_loop_running.
Qed.

Lemma C5_witness :
  ticker_period (fst (Search.Serve Sample.pva (Sample.env [])
                        (Sample.tcp Sample.ip_192_0_2_5) (repeat tick 14))) None
  = Some 1000000000
  /\ ticker_period (fst (Search.Serve Sample.pva (Sample.env [])
                           (Sample.tcp Sample.ip_192_0_2_5) (repeat tick 15))) None
     = Some 5000000000
  /\ ticker_period (fst (Legacy.Serve Sample.pva Sample.legacy_env
                           (Sample.tcp []) (repeat tick 16))) None
     = Some 5000000000.
Proof.
  split; [|split].
  - exact (proj1 (C5_ticker_period Sample.pva 14
              (Sample.env []) (Sample.tcp Sample.ip_192_0_2_5) _ _ _
              Sample.legacy_env (Sample.tcp []) _ _ _ eq_refl eq_refl)).
  - exact (proj1 (C5_ticker_period Sample.pva 15
              (Sample.env []) (Sample.tcp Sample.ip_192_0_2_5) _ _ _
              Sample.legacy_env (Sample.tcp []) _ _ _ eq_refl eq_refl)).
  - exact (proj1 (proj2 (proj2 (proj2 (C5_ticker_period Sample.pva 16
              (Sample.env []) (Sample.tcp Sample.ip_192_0_2_5) _ _ _
              Sample.legacy_env (Sample.tcp []) _ _ _ eq_refl eq_refl))))).
Defined.

(** ** The address in the beacons *)

(** Every beacon of [Search.Serve] carries the address fixed before the
    loop: the configured address in 16-byte form, or sixteen zero bytes
    when [serverAddr.IP] is empty.  Nothing is substituted when a beacon
    is sent. *)
Lemma Search_beacons_carry_template_address :
  forall (P : Decls) (env : Search.Env) (serverAddr : Net.TCPAddr)
         (sel : list Select),
    Forall (fun b => BeaconMessage.ServerAddress b
                     = search_beacon_address serverAddr)
           (beacons (fst (Search.Serve P env serverAddr sel))).
Proof.
  intros P env serverAddr sel.
  destruct (Search.startup env serverAddr) as [l [[b ln]|e]] eqn:H.
  - rewrite (Search_Serve_beacons P _ _ sel _ _ _ H).
    destruct (Search_startup_ok _ _ _ _ _ H) as (_ & <- & _).
    apply (Search_loop_address P _ _ sel
             {| Search.beacon := b; Search.i := 0;
                Search.ticker := Search.startupInterval |}).
  - unfold Search.Serve. rewrite H. cbn [fst].
    pose proof (Search_startup_quiet env serverAddr) as Hq.
    rewrite H in Hq. cbn [fst] in Hq.
    destruct (startup_events_quiet _ Hq) as [-> _]. constructor.
Qed.

(** C6, the behaviour of [Search.Serve] without a configured address:
    whatever the listener and its outbound paths, every beacon sent
    carries sixteen zero bytes as server address. *)
Theorem C6_wildcard_beacons_carry_zero_address :
  forall (P : Decls) (env : Search.Env) (port : Z) (zone : string)
         (sel : list Select),
    Forall (fun b => BeaconMessage.ServerAddress b = zero_bytes 16)
           (beacons (fst (Search.Serve P env
                            {| Net.tcp_IP := []; Net.tcp_Port := port;
                               Net.tcp_Zone := zone |}
                            sel))).
Proof.
  intros P env port zone sel.
  exact (Search_beacons_carry_template_address P env
           {| Net.tcp_IP := []; Net.tcp_Port := port; Net.tcp_Zone := zone |} sel).
Qed.

(** The same on a listener bound to 192.0.2.5 that sends to 192.0.2.255:
    the one beacon of the first tick carries sixteen zero bytes, not
    the 16-byte form of 192.0.2.5. *)
Example wildcard_beacon_on_192_0_2_5 :
  map BeaconMessage.ServerAddress
      (beacons (fst (Search.Serve Sample.pva (Sample.env []) (Sample.tcp []) [tick])))
  = [zero_bytes 16]
  /\ zero_bytes 16 <> Net.To16 Sample.ip_192_0_2_5.
Proof. split; [reflexivity | discriminate]. Qed.

(** With a configured address every beacon of [Search.Serve] carries it,
    in 16-byte form. *)
Lemma Search_concrete_beacons_carry_configured_address :
  forall (P : Decls) (env : Search.Env) (serverAddr : Net.TCPAddr)
         (sel : list Select),
    wellformed (Net.tcp_IP serverAddr) = true ->
    Forall (fun b => BeaconMessage.ServerAddress b
                     = Net.To16 (Net.tcp_IP serverAddr))
           (beacons (fst (Search.Serve P env serverAddr sel))).
Proof.
  intros P env serverAddr sel Hwf.
  pose proof (Search_beacons_carry_template_address P env serverAddr sel) as H.
  unfold search_beacon_address in H. rewrite copy_To16, Hwf in H.
  destruct (Nat.ltb_spec 0 (length (Net.tcp_IP serverAddr))) as [_|Hlen];
    [exact H|].
  unfold wellformed, Net.IPv4len, Net.IPv6len in Hwf.
  destruct (Net.tcp_IP serverAddr); [discriminate | cbn in Hlen; lia].
Qed.

Lemma Legacy_dial_loop_senders P env ips senders l senders' :
  Forall dialled_from_own_address senders ->
  Legacy.dial_loop P env ips senders = (l, Ok senders') ->
  Forall dialled_from_own_address senders'.
Proof.
  revert senders l. induction ips as [|ip rest IH]; intros senders l Hs H.
  - cbn in H. injection H as _ <-. exact Hs.
  - cbn [Legacy.dial_loop] in H. unfold bind, call in H.
    destruct (Legacy.net_DialUDP env _ _); [discriminate|].
    destruct (Legacy.dial_loop P env rest _) as [l' r] eqn:E.
    destruct r as [ss|e]; [|discriminate].
    injection H as _ <-.
    eapply IH; [|exact E].
    apply Forall_app. split; [exact Hs|].
    constructor; [|constructor].
    exists (Net.ipa_Zone ip), (Legacy.remote_of ip). reflexivity.
Qed.

Lemma Legacy_loop_addresses P a senders n st :
  BeaconMessage.ServerAddress (Legacy.beacon st) = zero_bytes 16 ->
  map BeaconMessage.ServerAddress
      (beacons (fst (Legacy.loop P a senders (repeat tick n) st)))
  = concat (repeat (map (fun s => copy (zero_bytes 16) (Legacy.ip s)) senders) n).
Proof.
  revert st. induction n as [|n IH]; intros st Hst; [reflexivity|].
  cbn [repeat concat]. rewrite Legacy_loop_tick. cbn [fst].
  rewrite beacons_app, map_app, Legacy_on_tick_beacons.
  destruct (Legacy_on_tick_state P a senders st) as (_ & Haddr & _).
  rewrite IH by (rewrite Haddr; exact Hst).
  f_equal. rewrite map_map. apply map_ext. intros s.
  unfold sent_copy. cbn. now rewrite Haddr, Hst.
Qed.

(** In the earlier [Serve] each sender overwrites the address of its
    copy of the beacon with its own local address. *)
Lemma Legacy_beacons_carry_sender_address :
  forall (P : Decls) (env : Legacy.Env) (serverAddr : Net.TCPAddr)
         (l : list Event) (b : BeaconMessage.t)
         (senders : list Legacy.sender),
    Legacy.startup P env serverAddr = (l, Ok (b, senders)) ->
    Forall dialled_from_own_address senders
    /\ forall n : nat,
        map BeaconMessage.ServerAddress
            (beacons (fst (Legacy.Serve P env serverAddr (repeat tick n))))
        = concat (repeat (map (fun s => copy (zero_bytes 16) (Legacy.ip s)) senders) n).
Proof.
  intros P env serverAddr l b senders H. split.
  - unfold Legacy.startup, bind, call, emit, ret in H.
    destruct (Legacy.rand_Read env) as [g|e]; [|discriminate].
    destruct (Legacy.local_ips env serverAddr) as [l1 [ips|e]]; [|discriminate].
    destruct (Legacy.dial_loop P env ips []) as [l2 [ss|e]] eqn:E; [|discriminate].
    injection H as _ _ <-.
    apply (Legacy_dial_loop_senders P env ips [] l2 ss); [constructor | exact E].
  - intros n. rewrite (Legacy_Serve_beacons P _ _ _ _ _ _ H).
    destruct (Legacy_startup_ok _ _ _ _ _ _ H) as (_ & Ha).
    apply Legacy_loop_addresses. exact Ha.
Qed.

(** ** Failures at the start *)

Lemma Legacy_interfaces_loop_fails before i after e ips :
  Forall (fun j => exists addrs, Net.Addrs j = Ok addrs) before ->
  Net.Addrs i = Err e ->
  Legacy.interfaces_loop (before ++ i :: after) ips
  = (map CallAddrsOf (before ++ [i]), Err e).
Proof.
  intros Hok Hi. revert ips.
  induction Hok as [|j before (addrs & Hj) _ IH]; intros ips;
    cbn [app Legacy.interfaces_loop map]; unfold bind, call.
  - rewrite Hi. reflexivity.
  - rewrite Hj, IH. reflexivity.
Qed.

Lemma Legacy_dial_loop_fails P env before ip after e senders :
  Forall (fun j => Legacy.net_DialUDP env (Legacy.local_of j)
                                      (Legacy.remote_of j) = None) before ->
  Legacy.net_DialUDP env (Legacy.local_of ip) (Legacy.remote_of ip) = Some e ->
  Legacy.dial_loop P env (before ++ ip :: after) senders
  = (map CallDialOf (before ++ [ip]), Err e).
Proof.
  intros Hok Hi. revert senders.
  induction Hok as [|j before Hj _ IH]; intros senders;
    cbn [app Legacy.dial_loop map]; unfold bind, call.
  - rewrite Hi. reflexivity.
  - rewrite Hj, IH. reflexivity.
Qed.

(** C8. When the random identity cannot be read, when the sockets
    cannot be created, or when the interfaces or their addresses cannot
    be listed, [Serve] returns that very error; the calls it has made
    are the ones up to the failing call, each made once, and among them
    there is no beacon and no ticker. *)
Theorem C8_startup_errors_are_returned :
  forall (P : Decls) (sel : list Select)
         (envS : Search.Env) (addrS : Net.TCPAddr) (eS : error) (lS : list Event)
         (envL : Legacy.Env) (addrL : Net.TCPAddr) (eL : error) (lL : list Event),
    SearchStartupFailure envS eS lS ->
    LegacyStartupFailure envL addrL eL lL ->
    Search.Serve P envS addrS sel = (lS, Some eS)
    /\ Legacy.Serve P envL addrL sel = (lL, Some eL)
    /\ forallb startup_event lS = true
    /\ forallb startup_event lL = true
    /\ beacons lS = []
    /\ beacons lL = [].
Proof.
  intros P sel envS addrS eS lS envL addrL eL lL HS HL.
  assert (SS : Search.startup envS addrS = (lS, Err eS)).
  { unfold Search.startup, bind, call.
    destruct HS as [Hr | guid Hr Hl].
    - rewrite Hr. reflexivity.
    - rewrite Hr, Hl. reflexivity. }
  assert (SL : Legacy.startup P envL addrL = (lL, Err eL)).
  { unfold Legacy.startup.
    destruct HL as [Hr | guid Hr Hw Hi | guid before i after Hr Hw Hi Hok He
                   | guid l before ip after Hr Hips Hok He].
    - unfold bind, call. rewrite Hr. reflexivity.
    - unfold Legacy.local_ips. fold (wildcard addrL). rewrite Hw.
      unfold bind, call. rewrite Hr, Hi. reflexivity.
    - unfold Legacy.local_ips. fold (wildcard addrL). rewrite Hw.
      unfold bind at 1 2 3. unfold call at 1 2. rewrite Hr, Hi.
      rewrite (Legacy_interfaces_loop_fails before i after eL [] Hok He).
      reflexivity.
    - unfold bind at 1 2 3 4. unfold call at 1. rewrite Hr, Hips.
      unfold emit.
      rewrite (Legacy_dial_loop_fails P envL before ip after eL [] Hok He).
      reflexivity. }
  pose proof (Search_startup_quiet envS addrS) as QS.
  pose proof (Legacy_startup_quiet P envL addrL) as QL.
  rewrite SS in QS. rewrite SL in QL. cbn [fst] in QS, QL.
  unfold Search.Serve, Legacy.Serve. rewrite SS, SL.
  repeat split; trivial.
  - apply (startup_events_quiet _ QS).
  - apply (startup_events_quiet _ QL).
Qed.

Lemma C8_witness :
  Search.Serve Sample.pva Sample.env_listen_fails
               (Sample.tcp Sample.ip_192_0_2_5) [tick; tick]
  = ([CallRandRead; CallListen], Some Sample.bind_error)
  /\ Legacy.Serve Sample.pva Sample.legacy_env_interfaces_fail
                  (Sample.tcp []) [tick; tick]
     = ([CallRandRead; CallInterfaces], Some Sample.route_error).
Proof.
  destruct (C8_startup_errors_are_returned Sample.pva [tick; tick]
              Sample.env_listen_fails (Sample.tcp Sample.ip_192_0_2_5)
              Sample.bind_error [CallRandRead; CallListen]
              Sample.legacy_env_interfaces_fail (Sample.tcp [])
              Sample.route_error [CallRandRead; CallInterfaces]
              (@SearchListenFails Sample.env_listen_fails Sample.bind_error
                 Sample.guid eq_refl eq_refl)
              (@LegacyInterfacesFail Sample.legacy_env_interfaces_fail
                 (Sample.tcp []) Sample.route_error Sample.guid
                 eq_refl eq_refl eq_refl))
    as (H1 & H2 & _).
  split; [exact H1 | exact H2].
Defined.

(* ================================================================== *)
(** ** Further facts and worked examples *)

(** The search goroutine does not depend on the address [Serve] was
    configured with, only on its port. *)
Lemma Serve_search_ignores_configured_address :
  forall (P : Decls) (env : Search.Env) (addr1 addr2 : Net.TCPAddr),
    Net.tcp_Port addr1 = Net.tcp_Port addr2 ->
    Search.Serve_search P env addr1 = Search.Serve_search P env addr2.
Proof.
  intros P env addr1 addr2 Hport.
  unfold Search.Serve_search, Search.startup, bind, call, emit, ret.
  destruct (Search.rand_Read env) as [g|e]; [|reflexivity].
  destruct (Search.udpconn_Listen env) as [ln|e]; [|reflexivity].
  rewrite Hport.
  destruct (Nat.ltb 0 (length (Net.tcp_IP addr1)));
    destruct (Nat.ltb 0 (length (Net.tcp_IP addr2))); reflexivity.
Qed.

(** Every message [Search.Serve] sends is a beacon handed to the one
    connection on the broadcast socket of the listener. *)
Lemma Search_loop_sends P a c sel st ev :
  In ev (fst (Search.loop P a c sel st)) ->
  match ev with
  | SendApp c' cmd (Beacon _) => c' = c /\ cmd = APP_BEACON P
  | SendApp _ _ (Response _) => False
  | _ => True
  end.
Proof.
  revert st. induction sel as [|[|e] sel IH]; intros st Hin.
  - destruct Hin.
  - rewrite Search_loop_tick in Hin. cbn [fst] in Hin.
    apply in_app_or in Hin. destruct Hin as [Hin|Hin]; [|exact (IH _ Hin)].
    unfold Search.on_tick in Hin.
    destruct (int_incr a (Search.i st) =? Search.startupCount); cbn in Hin;
      repeat (destruct Hin as [<-|Hin]; [cbn; auto|]); destruct Hin.
  - cbn in Hin. destruct Hin as [<-|[]]. exact I.
Qed.

Lemma Search_Serve_sends :
  forall (P : Decls) (env : Search.Env) (serverAddr : Net.TCPAddr)
         (sel : list Select) (ln : Udpconn.Listener.t)
         (c : Connection) (cmd : Z) (p : Payload),
    Search.udpconn_Listen env = Ok ln ->
    In (SendApp c cmd p) (fst (Search.Serve P env serverAddr sel)) ->
    c = Search.beaconSender P ln
    /\ cmd = APP_BEACON P
    /\ exists b, p = Beacon b.
Proof.
  intros P env serverAddr sel ln c cmd p HL Hin.
  pose proof (Search_startup_quiet env serverAddr) as Hq.
  destruct (Search.startup env serverAddr) as [l [[b ln']|e]] eqn:H.
  - destruct (Search_startup_ok _ _ _ _ _ H) as (_ & _ & HL').
    rewrite HL in HL'. injection HL' as <-.
    rewrite (Search_Serve_ok P _ _ sel _ _ _ H) in Hin. cbn [fst] in Hin.
    apply in_app_or in Hin. destruct Hin as [Hin|[Hin|Hin]].
    + cbn [fst] in Hq. rewrite forallb_forall in Hq.
      specialize (Hq _ Hin). discriminate.
    + discriminate.
    + apply Search_loop_sends in Hin. destruct p as [b'|r]; [|destruct Hin].
      destruct Hin as [-> ->]. repeat split. now exists b'.
  - unfold Search.Serve in Hin. rewrite H in Hin. cbn [fst] in Hin, Hq.
    rewrite forallb_forall in Hq. specialize (Hq _ Hin). discriminate.
Qed.

(** Addresses. *)
Example To16_of_192_0_2_5 :
  Net.To16 Sample.ip_192_0_2_5
  = [x00; x00; x00; x00; x00; x00; x00; x00; x00; x00; xff; xff;
     xc0; x00; x02; x05].
Proof. reflexivity. Qed.

Example To4_of_To16 :
  Net.To4 (Net.To16 Sample.ip_192_0_2_5) = Sample.ip_192_0_2_5.
Proof. reflexivity. Qed.

Example unspecified_addresses :
  Net.IsUnspecified [x00; x00; x00; x00] = true
  /\ Net.IsUnspecified Net.IPv6unspecified = true
  /\ Net.IsUnspecified Sample.ip_192_0_2_5 = false
  /\ Net.IsUnspecified [] = false.
Proof. repeat split. Qed.

Example copy_short_source :
  copy (zero_bytes 6) [x01; x02] = [x01; x02; x00; x00; x00; x00]
  /\ copy (zero_bytes 2) [x01; x02; x03] = [x01; x02].
Proof. split; reflexivity. Qed.

(** A search for A and B, sequence number 42, reply-required unset:
    nothing is sent. *)
Example silent_when_nothing_found :
  Search.handleConnection Sample.pva Sample.server
    (Sample.udp Sample.ip_192_0_2_5 5076)
    (Sample.datagram 3 (Sample.request 0 [Sample.channelA; Sample.channelB]))
  = ([CallNext; CallDecode;
      LogDebugf (Sample.request 0 [Sample.channelA; Sample.channelB]);
      ConnClose],
     io_EOF).
Proof. reflexivity. Qed.

(** The same search with reply-required set, also with the unicast bit
    (128) set next to it. *)
Example reply_when_required :
  responses (fst (Search.handleConnection Sample.pva Sample.server
     (Sample.udp Sample.ip_192_0_2_5 5076)
     (Sample.datagram 3 (Sample.request 129 [Sample.channelA; Sample.channelB]))))
  = [{| SearchResponse.GUID := Sample.guid;
        SearchResponse.SearchSequenceID := 42;
        SearchResponse.ServerAddress := Net.To16 Sample.ip_192_0_2_5;
        SearchResponse.ServerPort := 5075;
        SearchResponse.Protocol := "tcp";
        SearchResponse.Found := false;
        SearchResponse.SearchInstanceIDs := [1; 2] |}].
Proof. reflexivity. Qed.

(** A read that fails is logged as a warning unless it is [io.EOF]. *)
Example read_errors :
  let conn e := {| Udpconn.Conn.LocalAddr := Sample.udp Sample.ip_192_0_2_5 5076;
                   Udpconn.Conn.Addr := Sample.udp Sample.ip_10_0_0_1 40000;
                   Udpconn.Conn.Next := Err e |} in
  Search.handleConnection Sample.pva Sample.server
    (Sample.udp Sample.ip_192_0_2_5 5076) (conn io_EOF)
  = ([CallNext; ConnClose], io_EOF)
  /\ Search.handleConnection Sample.pva Sample.server
       (Sample.udp Sample.ip_192_0_2_5 5076) (conn (OtherError "short read"))
     = ([CallNext; ConnClose; LogWarnf (OtherError "short read")],
        OtherError "short read").
Proof. split; reflexivity. Qed.

(** Sixteen ticks of [Search.Serve], then cancellation. *)
Example sixteen_ticks_then_cancel :
  let run := Search.Serve Sample.pva (Sample.env [])
               (Sample.tcp Sample.ip_192_0_2_5)
               (repeat tick 16 ++ [done context_Canceled]) in
  snd run = Some context_Canceled
  /\ map BeaconMessage.BeaconSequenceID (beacons (fst run))
     = map Z.of_nat (seq 1 16)
  /\ filter (fun ev => negb (startup_event ev))
            (filter (fun ev => match ev with SendApp _ _ _ => false | _ => true end)
                    (fst run))
     = [NewTicker 1000000000; TickerStop; NewTicker 5000000000; TickerStop].
Proof. vm_compute. repeat split. Qed.

(** The earlier [Serve] on a host with lo (127.0.0.1) and eth0
    (192.0.2.5): each tick sends one beacon per address, to the limited
    broadcast address, carrying that address. *)
Example legacy_first_tick :
  map (fun b => (BeaconMessage.BeaconSequenceID b, BeaconMessage.ServerAddress b))
      (beacons (fst (Legacy.Serve Sample.pva Sample.legacy_env
                       (Sample.tcp []) [tick])))
  = [(1, Net.To16 [x7f; x00; x00; x01]); (1, Net.To16 Sample.ip_192_0_2_5)].
Proof. reflexivity. Qed.

(* ================================================================== *)
(** * Further properties of the code *)

(** ** The handler of one datagram *)

(** The log of [handleConnection], whatever the datagram. *)
Lemma handleConnection_cases P s laddr conn :
  let run := Search.handleConnection P s laddr conn in
  (exists e, Udpconn.Conn.Next conn = Err e
             /\ run = ([CallNext; ConnClose]
                         ++ (if is_EOF e then [] else [LogWarnf e]), e))
  \/ (exists msg, Udpconn.Conn.Next conn = Ok msg
                  /\ MessageCommand msg <> APP_SEARCH_REQUEST P
                  /\ run = ([CallNext; ConnClose], io_EOF))
  \/ (exists msg e, Udpconn.Conn.Next conn = Ok msg
                    /\ MessageCommand msg = APP_SEARCH_REQUEST P
                    /\ Decode msg = Err e
                    /\ run = ([CallNext; CallDecode; ConnClose]
                                ++ (if is_EOF e then [] else [LogWarnf e]), e))
  \/ (exists msg req, Udpconn.Conn.Next conn = Ok msg
                      /\ MessageCommand msg = APP_SEARCH_REQUEST P
                      /\ Decode msg = Ok req
                      /\ run = ([CallNext; CallDecode; LogDebugf req]
                                  ++ (if Search.reply_required P req
                                      then [SendApp (handler_conn P conn)
                                                    (APP_SEARCH_RESPONSE P)
                                                    (Response (not_found_response s laddr req))]
                                      else [])
                                  ++ [ConnClose], io_EOF)).
Proof.
  cbv zeta.
  destruct (Udpconn.Conn.Next conn) as [msg|e] eqn:H.
  - destruct (Z.eq_dec (MessageCommand msg) (APP_SEARCH_REQUEST P)) as [Hc|Hc].
    + destruct (Decode msg) as [req|e] eqn:Hd.
      * right; right; right. exists msg, req. repeat split; trivial.
        rewrite (handleConnection_request P s laddr conn msg req H Hc Hd).
        unfold Search.found. now rewrite reply_nil.
      * right; right; left. exists msg, e. repeat split; trivial.
        apply (handleConnection_decode_error P s laddr conn msg e H Hc Hd).
    + right; left. exists msg. repeat split; trivial.
      apply (handleConnection_other_command P s laddr conn msg H Hc).
  - left. exists e. split; trivial.
    apply (handleConnection_read_error P s laddr conn e H).
Qed.

(** X1. Whatever arrives, a handler reads one message, closes its
    pseudo-connection once, after anything it sends, sends at most one
    message, and logs a warning, as its last act, exactly when the error
    it returns is not [io.EOF]. *)
Theorem X1_handler_reads_once_and_closes_once :
  forall (P : Decls) (s : Search.searchServer) (laddr : Net.UDPAddr)
         (conn : Udpconn.Conn.t),
    let log := fst (Search.handleConnection P s laddr conn) in
    let err := snd (Search.handleConnection P s laddr conn) in
    exists body : list Event,
      log = CallNext :: body ++ ConnClose
                     :: (if is_EOF err then [] else [LogWarnf err])
      /\ count is_CallNext body = 0%nat
      /\ count is_ConnClose body = 0%nat
      /\ count is_LogWarnf body = 0%nat
      /\ (count is_SendApp body <= 1)%nat.
Proof.
  intros P s laddr conn. cbv zeta.
  destruct (handleConnection_cases P s laddr conn)
    as [(e & _ & ->) | [(msg & _ & _ & ->) | [(msg & e & _ & _ & _ & ->)
       | (msg & req & _ & _ & _ & ->)]]]; cbn [fst snd].
  - exists []. repeat split; auto.
  - exists []. repeat split; auto.
  - exists [CallDecode]. repeat split; auto.
  - destruct (Search.reply_required P req).
    + eexists [CallDecode; LogDebugf req; SendApp _ _ _]. repeat split; auto.
    + exists [CallDecode; LogDebugf req]. repeat split; auto.
Qed.

(** X2. An error of the read, or of the decoding of a search request,
    is returned as it is; nothing is sent, and the error is logged as a
    warning unless it is [io.EOF]. *)
Theorem X2_handler_returns_read_and_decode_errors :
  forall (P : Decls) (s : Search.searchServer) (laddr : Net.UDPAddr)
         (conn : Udpconn.Conn.t) (e : error),
    (Udpconn.Conn.Next conn = Err e
     \/ exists msg, Udpconn.Conn.Next conn = Ok msg
                    /\ MessageCommand msg = APP_SEARCH_REQUEST P
                    /\ Decode msg = Err e) ->
    let log := fst (Search.handleConnection P s laddr conn) in
    snd (Search.handleConnection P s laddr conn) = e
    /\ count is_SendApp log = 0%nat
    /\ count is_LogWarnf log = (if is_EOF e then 0 else 1)%nat
    /\ (is_EOF e = false -> In (LogWarnf e) log).
Proof.
  intros P s laddr conn e [H | (msg & H & Hc & Hd)]; cbv zeta.
  - rewrite (handleConnection_read_error P s laddr conn e H).
    destruct e; cbn; repeat split; auto; discriminate.
  - rewrite (handleConnection_decode_error P s laddr conn msg e H Hc Hd).
    destruct e; cbn; repeat split; auto; discriminate.
Qed.

Lemma X2_witness :
  let conn :=
    {| Udpconn.Conn.LocalAddr := Sample.udp Sample.ip_192_0_2_255 5076;
       Udpconn.Conn.Addr := Sample.udp Sample.ip_10_0_0_1 40000;
       Udpconn.Conn.Next :=
         Ok {| MessageCommand := 3;
               Decode := Err (OtherError "unexpected end of payload") |} |} in
  snd (Search.handleConnection Sample.pva Sample.server
         (Sample.udp Sample.ip_192_0_2_5 5076) conn)
  = OtherError "unexpected end of payload".
Proof.
  cbv zeta.
  refine (proj1 (X2_handler_returns_read_and_decode_errors
    Sample.pva Sample.server (Sample.udp Sample.ip_192_0_2_5 5076) _ _ _)).
  right. eexists. repeat split.
Defined.

(** X3. Whatever a handler sends goes out on the pseudo-connection the
    request came in on, as a search response of protocol version 2, and
    carries the GUID of the server, its port cut to 16 bits and the
    protocol name tcp; the response address of the request is not
    used. *)
Theorem X3_response_goes_back_on_the_same_connection :
  forall (P : Decls) (s : Search.searchServer) (laddr : Net.UDPAddr)
         (conn : Udpconn.Conn.t) (c : Connection) (cmd : Z) (p : Payload),
    In (SendApp c cmd p) (fst (Search.handleConnection P s laddr conn)) ->
    sock c = Accepted (Udpconn.Conn.LocalAddr conn) (Udpconn.Conn.Addr conn)
    /\ flags c = FLAG_FROM_SERVER P
    /\ Version c = Some 2
    /\ cmd = APP_SEARCH_RESPONSE P
    /\ exists r : SearchResponse.t,
        p = Response r
        /\ SearchResponse.GUID r = Search.GUID s
        /\ SearchResponse.ServerPort r = Search.ServerPort s mod 65536
        /\ SearchResponse.Protocol r = "tcp"%string.
Proof.
  intros P s laddr conn c cmd p Hin.
  destruct (handleConnection_cases P s laddr conn)
    as [(e & _ & E) | [(msg & _ & _ & E) | [(msg & e & _ & _ & _ & E)
       | (msg & req & _ & _ & _ & E)]]];
    cbv zeta in E; rewrite E in Hin; cbn [fst] in Hin.
  - destruct (is_EOF e); cbn in Hin;
      repeat (destruct Hin as [Hin|Hin]; [discriminate|]); destruct Hin.
  - cbn in Hin. repeat (destruct Hin as [Hin|Hin]; [discriminate|]). destruct Hin.
  - destruct (is_EOF e); cbn in Hin;
      repeat (destruct Hin as [Hin|Hin]; [discriminate|]); destruct Hin.
  - destruct (Search.reply_required P req); cbn in Hin.
    + destruct Hin as [Hin|[Hin|[Hin|[Hin|[Hin|[]]]]]]; try discriminate.
      injection Hin as <- <- <-. repeat split.
      eexists. repeat split.
    + repeat (destruct Hin as [Hin|Hin]; [discriminate|]). destruct Hin.
Qed.

Lemma X3_witness :
  let conn := Sample.datagram 3 (Sample.request 1 [Sample.channelA]) in
  sock (handler_conn Sample.pva conn)
  = Accepted (Sample.udp Sample.ip_192_0_2_255 5076)
             (Sample.udp Sample.ip_10_0_0_1 40000).
Proof.
  cbv zeta.
  refine (proj1 (X3_response_goes_back_on_the_same_connection
    Sample.pva Sample.server (Sample.udp Sample.ip_192_0_2_5 5076)
    (Sample.datagram 3 (Sample.request 1 [Sample.channelA]))
    (handler_conn Sample.pva (Sample.datagram 3 (Sample.request 1 [Sample.channelA])))
    4
    (Response (not_found_response Sample.server
                 (Sample.udp Sample.ip_192_0_2_5 5076)
                 (Sample.request 1 [Sample.channelA])))
    _)).
  cbn. right. right. right. left. reflexivity.
Defined.

(** ** The accept loop *)

Lemma accept_loop_accepted P s ln conns tail :
  Search.accept_loop P s ln (map Ok conns ++ tail)
  = {| Search.own := repeat GoHandleConnection (length conns)
                       ++ Search.own (Search.accept_loop P s ln tail);
       Search.exit := Search.exit (Search.accept_loop P s ln tail);
       Search.handlers :=
         map (Search.handleConnection P s (Udpconn.Listener.LocalAddr ln)) conns
         ++ Search.handlers (Search.accept_loop P s ln tail) |}.
Proof.
  induction conns as [|conn conns IH]; cbn [map app Search.accept_loop length repeat].
  - destruct (Search.accept_loop P s ln tail); reflexivity.
  - rewrite IH. reflexivity.
Qed.

(** X4. The accept loop starts one handler per accepted
    pseudo-connection, in the order of acceptance and each with the
    local address of the listener.  The first error of [Accept] ends
    it: the listener is closed once, the error is logged and returned,
    and nothing that would have been accepted later is handled. *)
Theorem X4_accept_loop_ends_at_the_first_error :
  forall (P : Decls) (s : Search.searchServer)
         (laddr : Net.UDPAddr) (bcast : list Net.UDPAddr)
         (conns : list Udpconn.Conn.t) (e : error)
         (later : list (result Udpconn.Conn.t)),
    Search.serve P s
      {| Udpconn.Listener.LocalAddr := laddr;
         Udpconn.Listener.BroadcastSendAddresses := bcast;
         Udpconn.Listener.Accept := map Ok conns ++ Err e :: later |}
    = {| Search.own := repeat GoHandleConnection (length conns)
                         ++ [ListenerClose; LogErrorf e];
         Search.exit := Some e;
         Search.handlers := map (Search.handleConnection P s laddr) conns |}
    /\ Search.serve P s
         {| Udpconn.Listener.LocalAddr := laddr;
            Udpconn.Listener.BroadcastSendAddresses := bcast;
            Udpconn.Listener.Accept := map Ok conns |}
       = {| Search.own := repeat GoHandleConnection (length conns);
            Search.exit := None;
            Search.handlers := map (Search.handleConnection P s laddr) conns |}.
Proof.
  intros P s laddr bcast conns e later. unfold Search.serve.
  cbn [Udpconn.Listener.Accept]. split.
  - rewrite accept_loop_accepted. cbn. now rewrite app_nil_r.
  - match goal with
    | |- Search.accept_loop _ _ ?ln _ = _ =>
        pose proof (accept_loop_accepted P s ln conns []) as E
    end.
    rewrite app_nil_r in E. rewrite E. cbn. now rewrite !app_nil_r.
Qed.

(** X5. The identity and the port of the search server are those of
    [Serve]: the bytes read at the start and [serverAddr.Port].  When
    [Accept] fails, the error is logged by [serve] even if it is
    [io.EOF], and a second time by the goroutine of [Serve] unless it
    is [io.EOF]. *)
Theorem X5_accept_error_is_logged :
  forall (P : Decls) (env : Search.Env) (serverAddr : Net.TCPAddr)
         (guid : list byte) (ln : Udpconn.Listener.t)
         (conns : list Udpconn.Conn.t) (e : error)
         (later : list (result Udpconn.Conn.t)),
    Search.rand_Read env = Ok guid ->
    Search.udpconn_Listen env = Ok ln ->
    Udpconn.Listener.Accept ln = map Ok conns ++ Err e :: later ->
    Search.Serve_search P env serverAddr
    = Some {| Search.own :=
                repeat GoHandleConnection (length conns)
                  ++ [ListenerClose; LogErrorf e]
                  ++ (if is_EOF e then [] else [LogErrorf e]);
              Search.exit := Some e;
              Search.handlers :=
                map (Search.handleConnection P (search_server guid serverAddr)
                       (Udpconn.Listener.LocalAddr ln)) conns |}.
Proof.
  intros P env serverAddr guid ln conns e later Hr Hl Ha.
  unfold Search.Serve_search, Search.startup, bind, call, emit, ret.
  rewrite Hr, Hl. unfold Search.serve. rewrite Ha, accept_loop_accepted.
  cbn [Search.accept_loop Search.own Search.exit Search.handlers].
  rewrite app_nil_r, <- app_assoc. f_equal. f_equal.
  destruct (Nat.ltb 0 (length (Net.tcp_IP serverAddr))); reflexivity.
Qed.

Lemma X5_witness :
  Search.Serve_search Sample.pva
    (Sample.env [Ok (Sample.datagram 3 (Sample.request 1 [Sample.channelA]));
                 Err io_EOF;
                 Ok (Sample.datagram 3 (Sample.request 1 [Sample.channelB]))])
    (Sample.tcp Sample.ip_10_0_0_1)
  = Some {| Search.own := [GoHandleConnection; ListenerClose; LogErrorf io_EOF];
            Search.exit := Some io_EOF;
            Search.handlers :=
              [Search.handleConnection Sample.pva
                 (search_server Sample.guid (Sample.tcp Sample.ip_10_0_0_1))
                 (Sample.udp Sample.ip_192_0_2_5 5076)
                 (Sample.datagram 3 (Sample.request 1 [Sample.channelA]))] |}.
Proof.
  exact (X5_accept_error_is_logged Sample.pva
    (Sample.env [Ok (Sample.datagram 3 (Sample.request 1 [Sample.channelA]));
                 Err io_EOF;
                 Ok (Sample.datagram 3 (Sample.request 1 [Sample.channelB]))])
    (Sample.tcp Sample.ip_10_0_0_1) Sample.guid
    (Sample.listener
       [Ok (Sample.datagram 3 (Sample.request 1 [Sample.channelA]));
        Err io_EOF;
        Ok (Sample.datagram 3 (Sample.request 1 [Sample.channelB]))])
    [Sample.datagram 3 (Sample.request 1 [Sample.channelA])]
    io_EOF
    [Ok (Sample.datagram 3 (Sample.request 1 [Sample.channelB]))]
    eq_refl eq_refl eq_refl).
Defined.

(** ** The beacons of one run *)

Lemma copy_length (dst src : list byte) : length (copy dst src) = length dst.
Proof.
  unfold copy. rewrite length_app, length_firstn, length_skipn. lia.
Qed.

Lemma uint_incr_range (w : UIntWidth) (x : Z) : 0 <= uint_incr w x < 2 ^ bits w.
Proof. unfold uint_incr, to_uint. apply Z.mod_pos_bound, pow_bits_pos. Qed.

Lemma set_BeaconSequenceID_twice (x y : Z) (b : BeaconMessage.t) :
  BeaconMessage.set_BeaconSequenceID x (BeaconMessage.set_BeaconSequenceID y b)
  = BeaconMessage.set_BeaconSequenceID x b.
Proof. reflexivity. Qed.

(** Every beacon of the loop of [Search.Serve] is the beacon the loop
    started with, but for its sequence number. *)
Lemma Search_loop_beacon_form P a c sel st :
  Forall (fun b => exists x, 0 <= x < 2 ^ bits (BeaconSequenceID_width P)
                             /\ b = BeaconMessage.set_BeaconSequenceID x (Search.beacon st))
         (beacons (fst (Search.loop P a c sel st))).
Proof.
  revert st. induction sel as [|[|e] sel IH]; intros st.
  - constructor.
  - rewrite Search_loop_tick. cbn [fst].
    rewrite beacons_app, Search_on_tick_beacons.
    assert (E : Search.beacon (fst (Search.on_tick P a c st))
                = BeaconMessage.set_BeaconSequenceID
                    (uint_incr (BeaconSequenceID_width P)
                       (BeaconMessage.BeaconSequenceID (Search.beacon st)))
                    (Search.beacon st)).
    { unfold Search.on_tick.
      destruct (int_incr a (Search.i st) =? Search.startupCount); reflexivity. }
    cbn [app]. constructor.
    + eexists. split; [apply uint_incr_range | exact E].
    + refine (Forall_impl _ _ (IH _)). intros b (x & Hx & ->).
      exists x. split; [exact Hx|]. rewrite E. apply set_BeaconSequenceID_twice.
  - constructor.
Qed.

(** Every beacon of the loop of the earlier [Serve] is a copy, made for
    one of the senders, of the beacon the loop started with, but for
    its sequence number. *)
Lemma Legacy_loop_beacon_form P a senders sel st :
  Forall (fun b => exists x s,
              0 <= x < 2 ^ bits (BeaconSequenceID_width P)
              /\ In s senders
              /\ b = sent_copy (BeaconMessage.set_BeaconSequenceID x (Legacy.beacon st)) s)
         (beacons (fst (Legacy.loop P a senders sel st))).
Proof.
  revert st. induction sel as [|[|e] sel IH]; intros st.
  - constructor.
  - rewrite Legacy_loop_tick. cbn [fst].
    rewrite beacons_app, Legacy_on_tick_beacons.
    assert (E : Legacy.beacon (fst (Legacy.on_tick P a senders st))
                = BeaconMessage.set_BeaconSequenceID
                    (uint_incr (BeaconSequenceID_width P)
                       (BeaconMessage.BeaconSequenceID (Legacy.beacon st)))
                    (Legacy.beacon st)).
    { unfold Legacy.on_tick.
      destruct (int_incr a (Legacy.i st) =? Legacy.startupCount); reflexivity. }
    apply Forall_app. split.
    + apply Forall_forall. intros b Hb. apply in_map_iff in Hb.
      destruct Hb as (s & <- & Hs).
      eexists _, s. split; [apply uint_incr_range|]. split; [exact Hs|].
      now rewrite E.
    + refine (Forall_impl _ _ (IH _)). intros b (x & s & Hx & Hs & ->).
      exists x, s. split; [exact Hx|]. split; [exact Hs|].
      rewrite E. now rewrite set_BeaconSequenceID_twice.
  - constructor.
Qed.

(** The beacon the loop of [Search.Serve] starts with. *)
Lemma Search_startup_template env serverAddr l b ln :
  Search.startup env serverAddr = (l, Ok (b, ln)) ->
  exists guid,
    Search.rand_Read env = Ok guid
    /\ Search.udpconn_Listen env = Ok ln
    /\ b = {| BeaconMessage.GUID := copy (zero_bytes 12) guid;
              BeaconMessage.BeaconSequenceID := 0;
              BeaconMessage.ServerAddress := search_beacon_address serverAddr;
              BeaconMessage.ServerPort := uint16 (Net.tcp_Port serverAddr);
              BeaconMessage.Protocol := "tcp" |}.
Proof.
  unfold Search.startup, search_beacon_address, bind, call, emit, ret.
  destruct (Search.rand_Read env) as [g|e]; [|discriminate].
  destruct (Search.udpconn_Listen env) as [ln'|e]; [|discriminate].
  intros H. injection H as _ <- <-. exists g.
  destruct (Nat.ltb 0 (length (Net.tcp_IP serverAddr))); repeat split.
Qed.

(** The beacon the loop of the earlier [Serve] starts with. *)
Lemma Legacy_startup_template P env serverAddr l b senders :
  Legacy.startup P env serverAddr = (l, Ok (b, senders)) ->
  exists guid,
    Legacy.rand_Read env = Ok guid
    /\ b = {| BeaconMessage.GUID := copy (zero_bytes 12) guid;
              BeaconMessage.BeaconSequenceID := 0;
              BeaconMessage.ServerAddress := zero_bytes 16;
              BeaconMessage.ServerPort := uint16 (Net.tcp_Port serverAddr);
              BeaconMessage.Protocol := "tcp" |}.
Proof.
  unfold Legacy.startup, bind, call, emit, ret.
  destruct (Legacy.rand_Read env) as [g|e]; [|discriminate].
  destruct (Legacy.local_ips env serverAddr) as [l1 [ips|e]]; [|discriminate].
  destruct (Legacy.dial_loop P env ips []) as [l2 [ss|e]]; [|discriminate].
  intros H. injection H as _ <- _. exists g. repeat split.
Qed.

Lemma search_beacon_address_length serverAddr :
  length (search_beacon_address serverAddr) = 16%nat.
Proof.
  unfold search_beacon_address.
  destruct (Nat.ltb 0 (length (Net.tcp_IP serverAddr)));
    [apply copy_length | reflexivity].
Qed.

Lemma uint16_range (x : Z) : 0 <= uint16 x < 65536.
Proof. unfold uint16, to_uint. apply Z.mod_pos_bound. reflexivity. Qed.

(** X6. Every beacon handed to [SendApp], by either [Serve], has a
    GUID of 12 bytes, a server address of 16 bytes, a port below 65536
    and a sequence number within the range of its counter, whatever the
    configured address (of any length), the port (of any size) and the
    bytes that came back from the random source. *)
Theorem X6_beacons_are_wellformed :
  forall (P : Decls) (sel : list Select)
         (envS : Search.Env) (addrS : Net.TCPAddr)
         (envL : Legacy.Env) (addrL : Net.TCPAddr),
    Forall (beacon_wellformed (BeaconSequenceID_width P))
           (beacons (fst (Search.Serve P envS addrS sel)))
    /\ Forall (beacon_wellformed (BeaconSequenceID_width P))
              (beacons (fst (Legacy.Serve P envL addrL sel))).
Proof.
  intros P sel envS addrS envL addrL. split.
  - destruct (Search.startup envS addrS) as [l [[b ln]|e]] eqn:H.
    + rewrite (Search_Serve_beacons P _ _ sel _ _ _ H).
      destruct (Search_startup_template _ _ _ _ _ H) as (g & _ & _ & ->).
      refine (Forall_impl _ _ (Search_loop_beacon_form P _ _ sel _)).
      intros b (x & Hx & ->). unfold beacon_wellformed.
      cbn [BeaconMessage.GUID BeaconMessage.ServerAddress BeaconMessage.ServerPort
           BeaconMessage.BeaconSequenceID BeaconMessage.set_BeaconSequenceID
           Search.beacon].
      repeat split; try apply Hx; try apply uint16_range.
      * rewrite copy_length. reflexivity.
      * apply search_beacon_address_length.
    + unfold Search.Serve. rewrite H. cbn [fst].
      pose proof (Search_startup_quiet envS addrS) as Hq.
      rewrite H in Hq. cbn [fst] in Hq.
      destruct (startup_events_quiet _ Hq) as [-> _]. constructor.
  - destruct (Legacy.startup P envL addrL) as [l [[b ss]|e]] eqn:H.
    + rewrite (Legacy_Serve_beacons P _ _ sel _ _ _ H).
      destruct (Legacy_startup_template _ _ _ _ _ _ H) as (g & _ & ->).
      refine (Forall_impl _ _ (Legacy_loop_beacon_form P _ _ sel _)).
      intros b (x & s & Hx & _ & ->). unfold beacon_wellformed, sent_copy.
      cbn [BeaconMessage.GUID BeaconMessage.ServerAddress BeaconMessage.ServerPort
           BeaconMessage.BeaconSequenceID BeaconMessage.set_BeaconSequenceID
           BeaconMessage.set_ServerAddress Legacy.beacon].
      repeat split; try apply Hx; try apply uint16_range.
      * rewrite copy_length. reflexivity.
      * rewrite copy_length. reflexivity.
    + unfold Legacy.Serve. rewrite H. cbn [fst].
      pose proof (Legacy_startup_quiet P envL addrL) as Hq.
      rewrite H in Hq. cbn [fst] in Hq.
      destruct (startup_events_quiet _ Hq) as [-> _]. constructor.
Qed.

(** X7. Within one run of [Serve], every search response carries the
    GUID, the port and the protocol name that the beacons carry; its
    GUID has 12 bytes and its server address 16. *)
Theorem X7_responses_and_beacons_share_the_identity :
  forall (P : Decls) (env : Search.Env) (serverAddr : Net.TCPAddr)
         (sel : list Select) (run : Search.ServeRun)
         (b : BeaconMessage.t) (h : list Event * error) (r : SearchResponse.t),
    In b (beacons (fst (Search.Serve P env serverAddr sel))) ->
    Search.Serve_search P env serverAddr = Some run ->
    In h (Search.handlers run) ->
    In r (responses (fst h)) ->
    SearchResponse.GUID r = BeaconMessage.GUID b
    /\ SearchResponse.ServerPort r = BeaconMessage.ServerPort b
    /\ SearchResponse.Protocol r = BeaconMessage.Protocol b
    /\ length (SearchResponse.GUID r) = 12%nat
    /\ length (SearchResponse.ServerAddress r) = 16%nat.
Proof.
  intros P env serverAddr sel run b h r Hb Hrun Hh Hr.
  destruct (Search.startup env serverAddr) as [l [[b0 ln]|e]] eqn:H.
  - rewrite (Search_Serve_beacons P _ _ sel _ _ _ H) in Hb.
    pose proof (Search_loop_beacon_form P (Search.arch env)
                  (Search.beaconSender P ln) sel
                  {| Search.beacon := b0; Search.i := 0;
                     Search.ticker := Search.startupInterval |}) as Hform.
    rewrite Forall_forall in Hform. destruct (Hform _ Hb) as (x & _ & ->).
    unfold Search.Serve_search in Hrun. rewrite H in Hrun.
    injection Hrun as <-. cbn [Search.handlers] in Hh.
    apply handlers_accept_loop in Hh. destruct Hh as (conn & _ & ->).
    destruct (Search_startup_template _ _ _ _ _ H) as (g & _ & _ & ->).
    match type of Hr with
    | In _ (responses (fst (Search.handleConnection _ ?s ?la _))) =>
        destruct (handleConnection_responses P s la conn)
          as [E | (msg & req & _ & _ & _ & _ & E)]
    end; rewrite E in Hr; cbn [In] in Hr.
    + contradiction.
    + destruct Hr as [<- | []].
      cbn [not_found_response SearchResponse.GUID SearchResponse.ServerPort
           SearchResponse.Protocol SearchResponse.ServerAddress
           BeaconMessage.GUID BeaconMessage.ServerPort BeaconMessage.Protocol
           BeaconMessage.set_BeaconSequenceID Search.beacon Search.GUID
           Search.ServerPort].
      repeat split; rewrite copy_length; reflexivity.
  - unfold Search.Serve_search in Hrun. rewrite H in Hrun. discriminate.
Qed.

Lemma X7_witness :
  let req := Sample.request 1 [Sample.channelA] in
  SearchResponse.GUID
    (not_found_response
       (search_server Sample.guid (Sample.tcp Sample.ip_10_0_0_1))
       (Sample.udp Sample.ip_192_0_2_5 5076) req)
  = Sample.guid.
Proof.
  cbv zeta.
  refine (proj1 (X7_responses_and_beacons_share_the_identity
    Sample.pva
    (Sample.env [Ok (Sample.datagram 3 (Sample.request 1 [Sample.channelA]))])
    (Sample.tcp Sample.ip_10_0_0_1) [tick] _
    {| BeaconMessage.GUID := Sample.guid;
       BeaconMessage.BeaconSequenceID := 1;
       BeaconMessage.ServerAddress := Net.To16 Sample.ip_10_0_0_1;
       BeaconMessage.ServerPort := 5075;
       BeaconMessage.Protocol := "tcp" |}
    _ _ _ eq_refl _ _)).
  - cbn. left. reflexivity.
  - cbn. left. reflexivity.
  - cbn. left. reflexivity.
Defined.

(** ** Cancellation and the ticker *)

Lemma Search_loop_cancel P a c n e later st :
  Search.loop P a c (repeat tick n ++ done e :: later) st
  = (fst (Search.loop P a c (repeat tick n) st) ++ [TickerStop], Some e).
Proof.
  revert st. induction n as [|n IH]; intros st; [reflexivity|].
  cbn [repeat app]. rewrite !Search_loop_tick, IH. cbn [fst snd].
  now rewrite app_assoc.
Qed.

Lemma Legacy_loop_cancel P a senders n e later st :
  Legacy.loop P a senders (repeat tick n ++ done e :: later) st
  = (fst (Legacy.loop P a senders (repeat tick n) st) ++ [TickerStop], Some e).
Proof.
  revert st. induction n as [|n IH]; intros st; [reflexivity|].
  cbn [repeat app]. rewrite !Legacy_loop_tick, IH. cbn [fst snd].
  now rewrite app_assoc.
Qed.

(** X8. When the context is done after n ticks, [Serve] returns the
    error of the context; what it has done is what the n ticks made it
    do, followed by the stop of the ticker, and nothing that becomes
    ready afterwards is looked at. *)
Theorem X8_cancellation_stops_the_ticker_and_returns :
  forall (P : Decls) (n : nat) (e : error) (later : list Select)
         (envS : Search.Env) (addrS : Net.TCPAddr) (lS : list Event)
         (bS : BeaconMessage.t) (ln : Udpconn.Listener.t)
         (envL : Legacy.Env) (addrL : Net.TCPAddr) (lL : list Event)
         (bL : BeaconMessage.t) (senders : list Legacy.sender),
    Search.startup envS addrS = (lS, Ok (bS, ln)) ->
    Legacy.startup P envL addrL = (lL, Ok (bL, senders)) ->
    Search.Serve P envS addrS (repeat tick n ++ done e :: later)
    = (fst (Search.Serve P envS addrS (repeat tick n)) ++ [TickerStop], Some e)
    /\ Legacy.Serve P envL addrL (repeat tick n ++ done e :: later)
       = (fst (Legacy.Serve P envL addrL (repeat tick n)) ++ [TickerStop], Some e).
Proof.
  intros P n e later envS addrS lS bS ln envL addrL lL bL senders HS HL. split.
  - rewrite !(Search_Serve_ok P _ _ _ _ _ _ HS), Search_loop_cancel.
    cbn [fst snd]. now rewrite <- app_assoc.
  - rewrite !(Legacy_Serve_ok P _ _ _ _ _ _ HL), Legacy_loop_cancel.
    cbn [fst snd]. now rewrite <- app_assoc.
Qed.

Lemma X8_witness :
  Search.Serve Sample.pva (Sample.env []) (Sample.tcp Sample.ip_192_0_2_5)
               (repeat tick 2 ++ done context_Canceled :: [tick; tick])
  = (fst (Search.Serve Sample.pva (Sample.env [])
            (Sample.tcp Sample.ip_192_0_2_5) (repeat tick 2)) ++ [TickerStop],
     Some context_Canceled).
Proof.
  exact (proj1 (X8_cancellation_stops_the_ticker_and_returns
    Sample.pva 2 context_Canceled [tick; tick]
    (Sample.env []) (Sample.tcp Sample.ip_192_0_2_5) _ _ _
    Sample.legacy_env (Sample.tcp []) _ _ _ eq_refl eq_refl)).
Defined.

Lemma count_app (f : Event -> bool) (l1 l2 : list Event) :
  count f (l1 ++ l2) = (count f l1 + count f l2)%nat.
Proof. unfold count. now rewrite filter_app, length_app. Qed.

Lemma startup_events_counts (l : list Event) :
  forallb startup_event l = true ->
  count is_NewTicker l = 0%nat /\ count is_TickerStop l = 0%nat
  /\ count is_SendApp l = 0%nat.
Proof.
  induction l as [|ev l IH]; cbn; [now repeat split|].
  intros H. apply andb_true_iff in H. destruct H as [Hev Hl].
  destruct (IH Hl) as (H1 & H2 & H3).
  destruct ev; cbn in *; try discriminate; repeat split; assumption.
Qed.

Lemma sends_ticker_counts P (senders : list Legacy.sender) pkt :
  count is_NewTicker (flat_map (fun s => Legacy.send P s pkt) senders) = 0%nat
  /\ count is_TickerStop (flat_map (fun s => Legacy.send P s pkt) senders) = 0%nat.
Proof. induction senders as [|s l IH]; cbn; [now split | exact IH]. Qed.

Lemma ticker_events_app (l1 l2 : list Event) :
  ticker_events (l1 ++ l2) = ticker_events l1 ++ ticker_events l2.
Proof. apply filter_app. Qed.

Lemma ticker_events_NewTicker (d : Z) (l : list Event) :
  ticker_events (NewTicker d :: l) = NewTicker d :: ticker_events l.
Proof. reflexivity. Qed.

Lemma ticker_events_quiet (l : list Event) :
  forallb startup_event l = true -> ticker_events l = [].
Proof.
  induction l as [|ev l IH]; cbn; [reflexivity|].
  intros H. apply andb_true_iff in H. destruct H as [Hev Hl].
  destruct ev; cbn in *; try discriminate; exact (IH Hl).
Qed.

Lemma ticker_events_sends P (senders : list Legacy.sender) pkt :
  ticker_events (flat_map (fun s => Legacy.send P s pkt) senders) = [].
Proof. induction senders as [|s l IH]; cbn; [reflexivity | exact IH]. Qed.

Lemma Tickers_loop_tick a sel st :
  Tickers.loop a (tick :: sel) st
  = (snd (Tickers.on_tick a st)
       ++ fst (Tickers.loop a sel (fst (Tickers.on_tick a st))),
     snd (Tickers.loop a sel (fst (Tickers.on_tick a st)))).
Proof.
  cbn [Tickers.loop].
  destruct (Tickers.on_tick a st) as [st' evs]. cbn [fst snd].
  destruct (Tickers.loop a sel st') as [l r]. reflexivity.
Qed.

(** The ticker events of the loop of [Search.Serve] are those of the
    numbered loop, in the same order. *)
Lemma Search_loop_tickers P a c sel st tst :
  Search.i st = Tickers.i tst ->
  ticker_events (fst (Search.loop P a c sel st))
  = map Tickers.erase (fst (Tickers.loop a sel tst))
  /\ snd (Search.loop P a c sel st) = snd (Tickers.loop a sel tst).
Proof.
  revert st tst. induction sel as [|[|e] sel IH]; intros st tst Hi.
  - split; reflexivity.
  - rewrite Search_loop_tick, Tickers_loop_tick. cbn [fst snd].
    rewrite ticker_events_app, map_app.
    assert (E : ticker_events (snd (Search.on_tick P a c st))
                = map Tickers.erase (snd (Tickers.on_tick a tst))
                /\ Search.i (fst (Search.on_tick P a c st))
                   = Tickers.i (fst (Tickers.on_tick a tst))).
    { unfold Search.on_tick, Tickers.on_tick. rewrite Hi.
      destruct (int_incr a (Tickers.i tst) =? Search.startupCount);
        split; reflexivity. }
    destruct E as [E1 E2]. destruct (IH _ _ E2) as [H1 H2].
    rewrite E1, H1, H2. split; reflexivity.
  - split; reflexivity.
Qed.

Lemma Legacy_loop_tickers P a senders sel st tst :
  Legacy.i st = Tickers.i tst ->
  ticker_events (fst (Legacy.loop P a senders sel st))
  = map Tickers.erase (fst (Tickers.loop a sel tst))
  /\ snd (Legacy.loop P a senders sel st) = snd (Tickers.loop a sel tst).
Proof.
  revert st tst. induction sel as [|[|e] sel IH]; intros st tst Hi.
  - split; reflexivity.
  - rewrite Legacy_loop_tick, Tickers_loop_tick. cbn [fst snd].
    rewrite ticker_events_app, map_app.
    assert (E : ticker_events (snd (Legacy.on_tick P a senders st))
                = map Tickers.erase (snd (Tickers.on_tick a tst))
                /\ Legacy.i (fst (Legacy.on_tick P a senders st))
                   = Tickers.i (fst (Tickers.on_tick a tst))).
    { unfold Legacy.on_tick, Tickers.on_tick. rewrite Hi.
      change Legacy.startupCount with Search.startupCount.
      destruct (int_incr a (Tickers.i tst) =? Search.startupCount);
        cbn [fst snd]; rewrite ?ticker_events_app, ticker_events_sends;
        split; reflexivity. }
    destruct E as [E1 E2]. destruct (IH _ _ E2) as [H1 H2].
    rewrite E1, H1, H2. split; reflexivity.
  - split; reflexivity.
Qed.

Lemma running_app (l1 l2 : list Tickers.TickerEvent) (live : list nat) :
  running (l1 ++ l2) live
  = match running l1 live with
    | Some live' => running l2 live'
    | None => None
    end.
Proof.
  revert live. induction l1 as [|ev l1 IH]; intros live; [reflexivity|].
  cbn [app running]. destruct ev as [id d|id];
    destruct (existsb (Nat.eqb id) live); try reflexivity; apply IH.
Qed.

(** In the numbered loop the one running ticker is the one the
    variable holds; it is stopped when the loop is left. *)
Lemma Tickers_loop_running a sel st :
  exists k : nat,
    running (fst (Tickers.loop a sel st)) [Tickers.ticker st]
    = Some (match snd (Tickers.loop a sel st) with
            | Some _ => []
            | None => [k]
            end).
Proof.
  revert st. induction sel as [|[|e] sel IH]; intros st.
  - exists (Tickers.ticker st). reflexivity.
  - rewrite Tickers_loop_tick. cbn [fst snd]. rewrite running_app.
    unfold Tickers.on_tick.
    destruct (int_incr a (Tickers.i st) =? Search.startupCount); cbn [fst snd].
    + cbn [running existsb]. rewrite Nat.eqb_refl. cbn [orb filter negb app].
      rewrite Nat.eqb_refl. cbn [negb existsb app].
      apply (IH {| Tickers.i := int_incr a (Tickers.i st);
                   Tickers.ticker := Tickers.created st;
                   Tickers.created := S (Tickers.created st) |}).
    + cbn [running].
      apply (IH {| Tickers.i := int_incr a (Tickers.i st);
                   Tickers.ticker := Tickers.ticker st;
                   Tickers.created := Tickers.created st |}).
  - exists 0%nat. cbn [Tickers.loop fst snd running existsb].
    rewrite Nat.eqb_refl. cbn [orb filter]. rewrite Nat.eqb_refl. reflexivity.
Qed.

(** X9. No ticker is left behind.  With the tickers numbered as they
    are created, and each [Stop] attributed to the ticker that the
    variable [ticker] holds at that moment, the ticker events in the
    log of [Serve] are, in order, those of the numbered loop; there,
    every [Stop] hits a ticker that runs, and the tickers that run
    afterwards are none once [Serve] has returned, and one, the one it
    waits on, while it runs. *)
Theorem X9_every_ticker_is_stopped :
  forall (P : Decls) (sel : list Select)
         (envS : Search.Env) (addrS : Net.TCPAddr) (lS : list Event)
         (bS : BeaconMessage.t) (ln : Udpconn.Listener.t)
         (envL : Legacy.Env) (addrL : Net.TCPAddr) (lL : list Event)
         (bL : BeaconMessage.t) (senders : list Legacy.sender),
    Search.startup envS addrS = (lS, Ok (bS, ln)) ->
    Legacy.startup P envL addrL = (lL, Ok (bL, senders)) ->
    let tS := Tickers.run (Search.arch envS) sel in
    let tL := Tickers.run (Legacy.arch envL) sel in
    ticker_events (fst (Search.Serve P envS addrS sel))
    = map Tickers.erase (fst tS)
    /\ snd (Search.Serve P envS addrS sel) = snd tS
    /\ ticker_events (fst (Legacy.Serve P envL addrL sel))
       = map Tickers.erase (fst tL)
    /\ snd (Legacy.Serve P envL addrL sel) = snd tL
    /\ (exists k : nat,
           running (fst tS) []
           = Some (match snd tS with Some _ => [] | None => [k] end))
    /\ (exists k : nat,
           running (fst tL) []
           = Some (match snd tL with Some _ => [] | None => [k] end)).
Proof.
  intros P sel envS addrS lS bS ln envL addrL lL bL senders HS HL tS tL.
  assert (Hrun : forall a,
             exists k : nat,
               running (fst (Tickers.run a sel)) []
               = Some (match snd (Tickers.run a sel) with
                       | Some _ => [] | None => [k] end)).
  { intros a. unfold Tickers.run.
    destruct (Tickers_loop_running a sel
                {| Tickers.i := 0; Tickers.ticker := 0; Tickers.created := 1 |})
      as (k & Hk).
    exists k.
    destruct (Tickers.loop a sel _) as [l r]. cbn [fst snd] in *.
    cbn [running existsb app]. exact Hk. }
  assert (ES : ticker_events (fst (Search.Serve P envS addrS sel))
               = map Tickers.erase (fst tS)
               /\ snd (Search.Serve P envS addrS sel) = snd tS).
  { subst tS. rewrite (Search_Serve_ok P _ _ sel _ _ _ HS). cbn [fst snd].
    pose proof (Search_startup_quiet envS addrS) as Hq.
    rewrite HS in Hq. cbn [fst] in Hq.
    rewrite ticker_events_app, (ticker_events_quiet _ Hq).
    destruct (Search_loop_tickers P (Search.arch envS) (Search.beaconSender P ln) sel
                {| Search.beacon := bS; Search.i := 0;
                   Search.ticker := Search.startupInterval |}
                {| Tickers.i := 0; Tickers.ticker := 0; Tickers.created := 1 |}
                eq_refl) as [H1 H2].
    rewrite ticker_events_NewTicker, H1, H2. unfold Tickers.run.
    destruct (Tickers.loop (Search.arch envS) sel _) as [l r].
    split; reflexivity. }
  assert (EL : ticker_events (fst (Legacy.Serve P envL addrL sel))
               = map Tickers.erase (fst tL)
               /\ snd (Legacy.Serve P envL addrL sel) = snd tL).
  { subst tL. rewrite (Legacy_Serve_ok P _ _ sel _ _ _ HL). cbn [fst snd].
    pose proof (Legacy_startup_quiet P envL addrL) as Hq.
    rewrite HL in Hq. cbn [fst] in Hq.
    rewrite ticker_events_app, (ticker_events_quiet _ Hq).
    destruct (Legacy_loop_tickers P (Legacy.arch envL) senders sel
                {| Legacy.beacon := bL; Legacy.i := 0;
                   Legacy.ticker := Legacy.startupInterval |}
                {| Tickers.i := 0; Tickers.ticker := 0; Tickers.created := 1 |}
                eq_refl) as [H1 H2].
    rewrite ticker_events_NewTicker, H1, H2. unfold Tickers.run.
    destruct (Tickers.loop (Legacy.arch envL) sel _) as [l r].
    split; reflexivity. }
  destruct ES as [ES1 ES2]. destruct EL as [EL1 EL2].
  split; [exact ES1|]. split; [exact ES2|].
  split; [exact EL1|]. split; [exact EL2|].
  split; apply Hrun.
Qed.

Lemma X9_witness :
  let sel := repeat tick 16 ++ [done context_Canceled] in
  ticker_events (fst (Search.Serve Sample.pva (Sample.env [])
                        (Sample.tcp Sample.ip_192_0_2_5) sel))
  = map Tickers.erase
        [Tickers.Created 0 1000000000; Tickers.Stopped 0;
         Tickers.Created 1 5000000000; Tickers.Stopped 1].
Proof.
  cbv zeta.
  exact (proj1 (X9_every_ticker_is_stopped Sample.pva
    (repeat tick 16 ++ [done context_Canceled])
    (Sample.env []) (Sample.tcp Sample.ip_192_0_2_5) _ _ _
    Sample.legacy_env (Sample.tcp []) _ _ _ eq_refl eq_refl)).
Defined.

Lemma to_int_id (a : IntSize) (x : Z) :
  0 <= x < 2 ^ 31 -> to_int a x = x.
Proof.
  intros H. unfold to_int.
  rewrite Z.mod_small; [lia|].
  destruct a; cbn; lia.
Qed.

Lemma Search_loop_replacements P a c n m st :
  Search.i st = Z.of_nat m ->
  Z.of_nat (m + n) < 2 ^ 31 ->
  count is_NewTicker (fst (Search.loop P a c (repeat tick n) st))
  = if Nat.ltb m 15 && Nat.leb 15 (m + n) then 1%nat else 0%nat.
Proof.
  revert m st. induction n as [|n IH]; intros m st Hst Hn.
  - rewrite Nat.add_0_r.
    destruct (Nat.ltb_spec m 15), (Nat.leb_spec 15 m); cbn; auto; lia.
  - cbn [repeat]. rewrite Search_loop_tick. cbn [fst]. rewrite count_app.
    destruct (Search_on_tick_state P a c st) as (_ & _ & Hi).
    assert (E : Search.i (fst (Search.on_tick P a c st)) = Z.of_nat (S m)).
    { rewrite Hi, Hst. unfold int_incr. rewrite to_int_id by lia. lia. }
    rewrite (IH (S m) _ E) by (replace (S m + n)%nat with (m + S n)%nat by lia; exact Hn).
    unfold Search.on_tick. rewrite Hst. unfold int_incr.
    rewrite to_int_id by lia. unfold Search.startupCount.
    replace (S m + n)%nat with (m + S n)%nat by lia.
    destruct (Z.eqb_spec (Z.of_nat m + 1) 15); cbn [snd];
      destruct (Nat.ltb_spec m 15), (Nat.ltb_spec (S m) 15),
               (Nat.leb_spec 15 (m + S n)); cbn; lia.
Qed.

Lemma Legacy_loop_replacements P a senders n m st :
  Legacy.i st = Z.of_nat m ->
  Z.of_nat (m + n) < 2 ^ 31 ->
  count is_NewTicker (fst (Legacy.loop P a senders (repeat tick n) st))
  = if Nat.ltb m 15 && Nat.leb 15 (m + n) then 1%nat else 0%nat.
Proof.
  revert m st. induction n as [|n IH]; intros m st Hst Hn.
  - rewrite Nat.add_0_r.
    destruct (Nat.ltb_spec m 15), (Nat.leb_spec 15 m); cbn; auto; lia.
  - cbn [repeat]. rewrite Legacy_loop_tick. cbn [fst]. rewrite count_app.
    destruct (Legacy_on_tick_state P a senders st) as (_ & _ & Hi).
    assert (E : Legacy.i (fst (Legacy.on_tick P a senders st)) = Z.of_nat (S m)).
    { rewrite Hi, Hst. unfold int_incr. rewrite to_int_id by lia. lia. }
    rewrite (IH (S m) _ E) by (replace (S m + n)%nat with (m + S n)%nat by lia; exact Hn).
    unfold Legacy.on_tick. rewrite Hst. unfold int_incr.
    rewrite to_int_id by lia. unfold Legacy.startupCount.
    replace (S m + n)%nat with (m + S n)%nat by lia.
    destruct (Z.eqb_spec (Z.of_nat m + 1) 15); cbn [snd];
      rewrite ?count_app;
      match goal with
      | |- context [flat_map (fun s => Legacy.send P s ?pkt) senders] =>
          destruct (sends_ticker_counts P senders pkt) as [-> _]
      end;
      destruct (Nat.ltb_spec m 15), (Nat.ltb_spec (S m) 15),
               (Nat.leb_spec 15 (m + S n)); cbn; lia.
Qed.

(** X10. Over the first 2^31 ticks the ticker is replaced exactly once,
    while tick 15 is handled: [Serve] has created one ticker before
    that tick and two from then on. *)
Theorem X10_the_ticker_is_replaced_once :
  forall (P : Decls) (n : nat)
         (envS : Search.Env) (addrS : Net.TCPAddr) (lS : list Event)
         (bS : BeaconMessage.t) (ln : Udpconn.Listener.t)
         (envL : Legacy.Env) (addrL : Net.TCPAddr) (lL : list Event)
         (bL : BeaconMessage.t) (senders : list Legacy.sender),
    Search.startup envS addrS = (lS, Ok (bS, ln)) ->
    Legacy.startup P envL addrL = (lL, Ok (bL, senders)) ->
    Z.of_nat n < 2 ^ 31 ->
    count is_NewTicker (fst (Search.Serve P envS addrS (repeat tick n)))
    = (if Nat.ltb n 15 then 1 else 2)%nat
    /\ count is_NewTicker (fst (Legacy.Serve P envL addrL (repeat tick n)))
       = (if Nat.ltb n 15 then 1 else 2)%nat.
Proof.
  intros P n envS addrS lS bS ln envL addrL lL bL senders HS HL Hn. split.
  - rewrite (Search_Serve_ok P _ _ _ _ _ _ HS). cbn [fst].
    pose proof (Search_startup_quiet envS addrS) as Hq.
    rewrite HS in Hq. cbn [fst] in Hq.
    destruct (startup_events_counts _ Hq) as (H1 & _).
    change (NewTicker Search.startupInterval :: ?l)
      with ([NewTicker Search.startupInterval] ++ l).
    rewrite !count_app, H1.
    rewrite (Search_loop_replacements P _ _ n 0%nat) by (cbn [Search.i]; auto; lia).
    cbn [Nat.add].
    destruct (Nat.ltb_spec n 15), (Nat.leb_spec 15 n); cbn; lia.
  - rewrite (Legacy_Serve_ok P _ _ _ _ _ _ HL). cbn [fst].
    pose proof (Legacy_startup_quiet P envL addrL) as Hq.
    rewrite HL in Hq. cbn [fst] in Hq.
    destruct (startup_events_counts _ Hq) as (H1 & _).
    change (NewTicker Legacy.startupInterval :: ?l)
      with ([NewTicker Legacy.startupInterval] ++ l).
    rewrite !count_app, H1.
    rewrite (Legacy_loop_replacements P _ _ n 0%nat) by (cbn [Legacy.i]; auto; lia).
    cbn [Nat.add].
    destruct (Nat.ltb_spec n 15), (Nat.leb_spec 15 n); cbn; lia.
Qed.

Lemma X10_witness :
  count is_NewTicker
        (fst (Search.Serve Sample.pva (Sample.env [])
                (Sample.tcp Sample.ip_192_0_2_5) (repeat tick 40)))
  = 2%nat.
Proof.
  refine (proj1 (X10_the_ticker_is_replaced_once Sample.pva 40
    (Sample.env []) (Sample.tcp Sample.ip_192_0_2_5) _ _ _
    Sample.legacy_env (Sample.tcp []) _ _ _ eq_refl eq_refl _)).
  reflexivity.
Defined.

(** ** The address plan of the earlier [Serve] *)

Lemma appendIPs_ipnets name addrs ips :
  Legacy.appendIPs name addrs ips = ips ++ ipnets name addrs.
Proof.
  unfold Legacy.appendIPs, ipnets.
  revert ips. induction addrs as [|addr addrs IH]; intros ips; cbn.
  - now rewrite app_nil_r.
  - rewrite IH. destruct addr; cbn; [now rewrite <- app_assoc | reflexivity].
Qed.

Lemma Legacy_interfaces_loop_ok interfaces ips :
  Forall (fun i => exists addrs, Net.Addrs i = Ok addrs) interfaces ->
  Legacy.interfaces_loop interfaces ips
  = (map CallAddrsOf interfaces, Ok (ips ++ all_ipnets interfaces)).
Proof.
  intros Hok. revert ips.
  induction Hok as [|i interfaces (addrs & Hi) _ IH]; intros ips;
    cbn [Legacy.interfaces_loop map all_ipnets flat_map]; unfold bind, call, ret.
  - now rewrite app_nil_r.
  - rewrite Hi, IH, appendIPs_ipnets, <- app_assoc. reflexivity.
Qed.

Lemma Legacy_dial_loop_ok P env ips senders :
  Forall (fun ip => Legacy.net_DialUDP env (Legacy.local_of ip)
                                       (Legacy.remote_of ip) = None) ips ->
  Legacy.dial_loop P env ips senders
  = (map CallDialOf ips, Ok (senders ++ map (sender_of P) ips)).
Proof.
  intros Hok. revert senders.
  induction Hok as [|ip ips Hip _ IH]; intros senders;
    cbn [Legacy.dial_loop map]; unfold bind, call, ret.
  - now rewrite app_nil_r.
  - rewrite Hip, IH, <- app_assoc. reflexivity.
Qed.

(** The start of the earlier [Serve] without a configured address,
    every call succeeding. *)
Lemma Legacy_startup_wildcard :
  forall (P : Decls) (env : Legacy.Env) (serverAddr : Net.TCPAddr)
         (guid : list byte) (interfaces : list Net.Interface),
    Legacy.rand_Read env = Ok guid ->
    wildcard serverAddr = true ->
    Legacy.net_Interfaces env = Ok interfaces ->
    Forall (fun i => exists addrs, Net.Addrs i = Ok addrs) interfaces ->
    Forall (fun ip => Legacy.net_DialUDP env (Legacy.local_of ip)
                                         (Legacy.remote_of ip) = None)
           (all_ipnets interfaces) ->
    exists b : BeaconMessage.t,
      Legacy.startup P env serverAddr
      = ([CallRandRead; CallInterfaces]
           ++ map CallAddrsOf interfaces
           ++ [LogInfofIPs (all_ipnets interfaces)]
           ++ map CallDialOf (all_ipnets interfaces),
         Ok (b, map (sender_of P) (all_ipnets interfaces))).
Proof.
  intros P env serverAddr guid interfaces Hr Hw Hi Hok Hdial.
  eexists. unfold Legacy.startup, Legacy.local_ips. fold (wildcard serverAddr).
  rewrite Hw. unfold bind at 1 2 3 4 5. unfold call at 1 2. rewrite Hr, Hi.
  rewrite (Legacy_interfaces_loop_ok interfaces [] Hok). cbn [app].
  unfold emit. rewrite (Legacy_dial_loop_ok P env _ [] Hdial).
  unfold ret. cbn [app]. rewrite app_nil_r. reflexivity.
Qed.

(** X11. Without a configured address (nil or unspecified), and when
    every call succeeds, [Serve] lists the interfaces once, asks each
    one for its addresses, and dials one socket per address that is a
    [*net.IPNet], in the order of the interfaces and of their
    addresses, with the name of the interface as zone; the other
    addresses are skipped.  One sender per socket results. *)
Theorem X11_one_sender_per_interface_address :
  forall (P : Decls) (env : Legacy.Env) (serverAddr : Net.TCPAddr)
         (guid : list byte) (interfaces : list Net.Interface),
    Legacy.rand_Read env = Ok guid ->
    wildcard serverAddr = true ->
    Legacy.net_Interfaces env = Ok interfaces ->
    Forall (fun i => exists addrs, Net.Addrs i = Ok addrs) interfaces ->
    Forall (fun ip => Legacy.net_DialUDP env (Legacy.local_of ip)
                                         (Legacy.remote_of ip) = None)
           (all_ipnets interfaces) ->
    exists b : BeaconMessage.t,
      Legacy.startup P env serverAddr
      = ([CallRandRead; CallInterfaces]
           ++ map CallAddrsOf interfaces
           ++ [LogInfofIPs (all_ipnets interfaces)]
           ++ map CallDialOf (all_ipnets interfaces),
         Ok (b, map (sender_of P) (all_ipnets interfaces))).
Proof. exact Legacy_startup_wildcard. Qed.

Lemma X11_witness :
  exists b : BeaconMessage.t,
    snd (Legacy.startup Sample.pva Sample.legacy_env (Sample.tcp []))
    = Ok (b, [sender_of Sample.pva
                {| Net.ipa_IP := Net.To16 [x7f; x00; x00; x01];
                   Net.ipa_Zone := "lo" |};
              sender_of Sample.pva
                {| Net.ipa_IP := Net.To16 Sample.ip_192_0_2_5;
                   Net.ipa_Zone := "eth0" |}]).
Proof.
  destruct (X11_one_sender_per_interface_address Sample.pva Sample.legacy_env
              (Sample.tcp []) Sample.guid [Sample.lo; Sample.eth0]
              eq_refl eq_refl eq_refl) as (b & E).
  - repeat constructor; eexists; reflexivity.
  - repeat constructor.
  - exists b. rewrite E. reflexivity.
Defined.

(** X12. With a configured address that is neither nil nor
    unspecified, [Serve] does not look at the interfaces: it dials one
    socket, from that address and zone, and has that one sender. *)
Theorem X12_configured_address_gives_one_sender :
  forall (P : Decls) (env : Legacy.Env) (serverAddr : Net.TCPAddr)
         (guid : list byte),
    Legacy.rand_Read env = Ok guid ->
    wildcard serverAddr = false ->
    let ip := {| Net.ipa_IP := Net.tcp_IP serverAddr;
                 Net.ipa_Zone := Net.tcp_Zone serverAddr |} in
    Legacy.net_DialUDP env (Legacy.local_of ip) (Legacy.remote_of ip) = None ->
    exists b : BeaconMessage.t,
      Legacy.startup P env serverAddr
      = ([CallRandRead; LogInfofIPs [ip]; CallDialOf ip],
         Ok (b, [sender_of P ip])).
Proof.
  intros P env serverAddr guid Hr Hw ip Hdial. subst ip.
  eexists. unfold Legacy.startup, Legacy.local_ips. fold (wildcard serverAddr).
  rewrite Hw. unfold bind at 1 2 3 4. unfold call at 1. rewrite Hr.
  unfold ret at 1. unfold emit.
  rewrite (Legacy_dial_loop_ok P env [_] [])
    by (constructor; [exact Hdial | constructor]).
  reflexivity.
Qed.

Lemma X12_witness :
  exists b : BeaconMessage.t,
    Legacy.startup Sample.pva Sample.legacy_env (Sample.tcp Sample.ip_192_0_2_5)
    = ([CallRandRead;
        LogInfofIPs [{| Net.ipa_IP := Sample.ip_192_0_2_5; Net.ipa_Zone := "" |}];
        CallDialOf {| Net.ipa_IP := Sample.ip_192_0_2_5; Net.ipa_Zone := "" |}],
       Ok (b, [sender_of Sample.pva
                 {| Net.ipa_IP := Sample.ip_192_0_2_5; Net.ipa_Zone := "" |}])).
Proof.
  exact (X12_configured_address_gives_one_sender Sample.pva Sample.legacy_env
           (Sample.tcp Sample.ip_192_0_2_5) Sample.guid
           eq_refl eq_refl eq_refl).
Defined.



(** ** Addresses in the beacons *)

Lemma copy_16 (ip : list byte) :
  length ip = 16%nat -> copy (zero_bytes 16) ip = ip.
Proof.
  intros H. unfold copy.
  rewrite firstn_all2 by (rewrite H; cbn; lia).
  rewrite skipn_all2 by (rewrite H; cbn; lia).
  apply app_nil_r.
Qed.

Lemma copy_4 (ip : list byte) :
  length ip = 4%nat ->
  copy (zero_bytes 16) ip = ip ++ zero_bytes 12
  /\ copy (zero_bytes 16) ip <> Net.To16 ip.
Proof.
  intros H.
  do 4 (destruct ip as [|? ip]; [discriminate|]).
  destruct ip; [|discriminate].
  split; [reflexivity | discriminate].
Qed.

(** X14. In the earlier [Serve] a beacon carries the bytes of the
    local address of its sender as they are, zero-padded to 16 bytes:
    a 16-byte address is carried unchanged, a 4-byte IPv4 address
    fills the first four bytes and is not brought to its 16-byte
    form. *)
Theorem X14_legacy_beacon_carries_raw_address_bytes :
  forall (P : Decls) (env : Legacy.Env) (serverAddr : Net.TCPAddr)
         (sel : list Select) (l : list Event) (b0 : BeaconMessage.t)
         (senders : list Legacy.sender) (b : BeaconMessage.t),
    Legacy.startup P env serverAddr = (l, Ok (b0, senders)) ->
    In b (beacons (fst (Legacy.Serve P env serverAddr sel))) ->
    exists s : Legacy.sender,
      In s senders
      /\ BeaconMessage.ServerAddress b = copy (zero_bytes 16) (Legacy.ip s)
      /\ (length (Legacy.ip s) = 16%nat ->
          BeaconMessage.ServerAddress b = Legacy.ip s)
      /\ (length (Legacy.ip s) = 4%nat ->
          BeaconMessage.ServerAddress b = Legacy.ip s ++ zero_bytes 12
          /\ BeaconMessage.ServerAddress b <> Net.To16 (Legacy.ip s)).
Proof.
  intros P env serverAddr sel l b0 senders b H Hb.
  rewrite (Legacy_Serve_beacons P _ _ sel _ _ _ H) in Hb.
  pose proof (Legacy_loop_beacon_form P (Legacy.arch env) senders sel
                {| Legacy.beacon := b0; Legacy.i := 0;
                   Legacy.ticker := Legacy.startupInterval |}) as Hform.
  rewrite Forall_forall in Hform.
  destruct (Hform _ Hb) as (x & s & _ & Hs & ->).
  destruct (Legacy_startup_ok _ _ _ _ _ _ H) as (_ & Ha).
  exists s. split; [exact Hs|].
  assert (E : BeaconMessage.ServerAddress
                (sent_copy (BeaconMessage.set_BeaconSequenceID x
                              (Legacy.beacon {| Legacy.beacon := b0; Legacy.i := 0;
                                                Legacy.ticker := Legacy.startupInterval |})) s)
              = copy (zero_bytes 16) (Legacy.ip s)).
  { unfold sent_copy.
    cbn [BeaconMessage.ServerAddress BeaconMessage.set_ServerAddress
         BeaconMessage.set_BeaconSequenceID Legacy.beacon].
    now rewrite Ha. }
  rewrite E. split; [reflexivity|]. split.
  - apply copy_16.
  - apply copy_4.
Qed.

Lemma X14_witness :
  exists s : Legacy.sender,
    In s [sender_of Sample.pva
            {| Net.ipa_IP := Sample.ip_192_0_2_5; Net.ipa_Zone := "" |}]
    /\ [xc0; x00; x02; x05; x00; x00; x00; x00;
        x00; x00; x00; x00; x00; x00; x00; x00]
       = copy (zero_bytes 16) (Legacy.ip s).
Proof.
  destruct (X14_legacy_beacon_carries_raw_address_bytes
              Sample.pva Sample.legacy_env (Sample.tcp Sample.ip_192_0_2_5)
              [tick] _ _ _
              {| BeaconMessage.GUID := Sample.guid;
                 BeaconMessage.BeaconSequenceID := 1;
                 BeaconMessage.ServerAddress :=
                   [xc0; x00; x02; x05; x00; x00; x00; x00;
                    x00; x00; x00; x00; x00; x00; x00; x00];
                 BeaconMessage.ServerPort := 5075;
                 BeaconMessage.Protocol := "tcp" |}
              eq_refl) as (s & Hs & E & _).
  - cbn. left. reflexivity.
  - exists s. split; [exact Hs | exact E].
Defined.

(** X15. Every beacon of [Search.Serve] carries the 16-byte form of
    the configured address when that address has 4 or 16 bytes, and
    sixteen zero bytes for an address of any other length, the nil
    address included; an unspecified address such as 0.0.0.0 counts as
    configured. *)
Theorem X15_search_beacon_address :
  forall (P : Decls) (env : Search.Env) (serverAddr : Net.TCPAddr)
         (sel : list Select),
    Forall (fun b => BeaconMessage.ServerAddress b
                     = if wellformed (Net.tcp_IP serverAddr)
                       then Net.To16 (Net.tcp_IP serverAddr)
                       else zero_bytes 16)
           (beacons (fst (Search.Serve P env serverAddr sel))).
Proof.
  intros P env serverAddr sel.
  refine (Forall_impl _ _ (Search_beacons_carry_template_address P env serverAddr sel)).
  intros b ->. unfold search_beacon_address. rewrite copy_To16.
  destruct (Nat.ltb_spec 0 (length (Net.tcp_IP serverAddr))) as [_|Hlen];
    [reflexivity|].
  unfold wellformed, Net.IPv4len, Net.IPv6len.
  destruct (Net.tcp_IP serverAddr); [reflexivity | cbn in Hlen; lia].
Qed.

(** ** The reply-required bit *)

Lemma land_pow2 (f k : Z) :
  0 <= k -> Z.land f (2 ^ k) = if Z.testbit f k then 2 ^ k else 0.
Proof.
  intros Hk. apply Z.bits_inj'. intros n Hn.
  rewrite Z.land_spec, Z.pow2_bits_eqb by exact Hk.
  destruct (Z.eqb_spec k n) as [->|Hne].
  - rewrite andb_true_r.
    destruct (Z.testbit f n) eqn:E.
    + now rewrite Z.pow2_bits_true.
    + now rewrite Z.bits_0.
  - rewrite andb_false_r.
    destruct (Z.testbit f k).
    + rewrite Z.pow2_bits_false; [reflexivity | exact Hne].
    + now rewrite Z.bits_0.
Qed.

(** X16. When [SEARCH_REPLY_REQUIRED] is the single bit k, the test
    made on the flags of a request is the test of that bit: the other
    bits of the flags, the unicast bit among them, have no part in the
    decision to reply. *)
Theorem X16_reply_required_tests_one_bit :
  forall (P : Decls) (req : SearchRequest.t) (k : Z),
    0 <= k ->
    SEARCH_REPLY_REQUIRED P = 2 ^ k ->
    Search.reply_required P req = Z.testbit (SearchRequest.Flags req) k.
Proof.
  intros P req k Hk HR. unfold Search.reply_required.
  rewrite HR, land_pow2 by exact Hk.
  assert (0 < 2 ^ k) by (apply Z.pow_pos_nonneg; lia).
  destruct (Z.testbit (SearchRequest.Flags req) k).
  - apply Z.eqb_refl.
  - apply Z.eqb_neq. lia.
Qed.

Lemma X16_witness :
  Search.reply_required Sample.pva (Sample.request 128 [Sample.channelA])
  = Z.testbit 128 0.
Proof.
  refine (X16_reply_required_tests_one_bit Sample.pva
            (Sample.request 128 [Sample.channelA]) 0 _ eq_refl).
  discriminate.
Defined.

(** ** A host without addresses *)

(** X17. When the interfaces of the host have no [*net.IPNet] address
    at all, the earlier [Serve] does not fail: it starts with no
    sender, never sends a beacon whatever it receives, and keeps
    handling ticks. *)
Theorem X17_no_address_no_beacon :
  forall (P : Decls) (env : Legacy.Env) (serverAddr : Net.TCPAddr)
         (guid : list byte) (interfaces : list Net.Interface),
    Legacy.rand_Read env = Ok guid ->
    wildcard serverAddr = true ->
    Legacy.net_Interfaces env = Ok interfaces ->
    Forall (fun i => exists addrs, Net.Addrs i = Ok addrs) interfaces ->
    all_ipnets interfaces = [] ->
    (forall sel : list Select,
        count is_SendApp (fst (Legacy.Serve P env serverAddr sel)) = 0%nat)
    /\ (forall n : nat,
           snd (Legacy.Serve P env serverAddr (repeat tick n)) = None).
Proof.
  intros P env serverAddr guid interfaces Hr Hw Hi Hok Hnone.
  destruct (Legacy_startup_wildcard P env serverAddr guid
              interfaces Hr Hw Hi Hok) as (b & E).
  { rewrite Hnone. constructor. }
  rewrite Hnone in E. cbn [map app] in E.
  assert (Hloop : forall a sel st,
             count is_SendApp (fst (Legacy.loop P a [] sel st)) = 0%nat).
  { intros a sel. induction sel as [|[|e] sel IH]; intros st; [reflexivity| |reflexivity].
    rewrite Legacy_loop_tick. cbn [fst]. rewrite count_app, IH.
    unfold Legacy.on_tick.
    destruct (int_incr a (Legacy.i st) =? Legacy.startupCount); reflexivity. }
  split.
  - intros sel. rewrite (Legacy_Serve_ok P _ _ sel _ _ _ E). cbn [fst].
    pose proof (Legacy_startup_quiet P env serverAddr) as Hq.
    rewrite E in Hq. cbn [fst] in Hq.
    destruct (startup_events_counts _ Hq) as (_ & _ & H3).
    rewrite count_app, H3.
    change (NewTicker Legacy.startupInterval :: ?l)
      with ([NewTicker Legacy.startupInterval] ++ l).
    rewrite count_app, Hloop. reflexivity.
  - intros n. rewrite (Legacy_Serve_ok P _ _ _ _ _ _ E). cbn [snd].
    apply Legacy_loop_running.
Qed.

Lemma X17_witness :
  count is_SendApp
        (fst (Legacy.Serve Sample.pva
                {| Legacy.rand_Read := Ok Sample.guid;
                   Legacy.net_Interfaces :=
                     Ok [{| Net.Name := "lo";
                            Net.Addrs := Ok [Net.OtherAddr "link"] |}];
                   Legacy.net_DialUDP := fun _ _ => None;
                   Legacy.arch := Int32 |}
                (Sample.tcp []) [tick; tick; done context_Canceled]))
  = 0%nat.
Proof.
  refine (proj1 (X17_no_address_no_beacon Sample.pva
                   {| Legacy.rand_Read := Ok Sample.guid;
                      Legacy.net_Interfaces :=
                        Ok [{| Net.Name := "lo";
                               Net.Addrs := Ok [Net.OtherAddr "link"] |}];
                      Legacy.net_DialUDP := fun _ _ => None;
                      Legacy.arch := Int32 |}
                   (Sample.tcp [])
                   Sample.guid
                   [{| Net.Name := "lo"; Net.Addrs := Ok [Net.OtherAddr "link"] |}]
                   eq_refl eq_refl eq_refl _ eq_refl) _).
  repeat constructor. eexists. reflexivity.
Defined.

(** ** The two tasks of [Serve] *)

(** X18. The search goroutine runs exactly when the start of [Serve]
    succeeds: when the random identity or the listener cannot be had,
    [Serve] returns before starting it, and otherwise [Serve] is still
    running when it is started. *)
Theorem X18_search_runs_iff_startup_succeeds :
  forall (P : Decls) (env : Search.Env) (serverAddr : Net.TCPAddr),
    (Search.Serve_search P env serverAddr = None
     <-> exists e, snd (Search.Serve P env serverAddr []) = Some e)
    /\ (Search.Serve_search P env serverAddr <> None
        <-> In GoServe (fst (Search.Serve P env serverAddr []))).
Proof.
  intros P env serverAddr.
  unfold Search.Serve_search, Search.Serve, Search.startup, bind, call, emit, ret.
  destruct (Search.rand_Read env) as [g|e].
  - destruct (Search.udpconn_Listen env) as [ln|e]; cbn [fst snd Search.loop].
    + split; split.
      * discriminate.
      * intros (e & He). discriminate.
      * intros _. cbn. auto.
      * intros _. discriminate.
    + split; split.
      * intros _. now exists e.
      * reflexivity.
      * intros H. now elim H.
      * cbn. intros [H|[H|[]]]; discriminate.
  - split; split; cbn [fst snd].
    + intros _. now exists e.
    + reflexivity.
    + intros H. now elim H.
    + cbn. intros [H|[]]. discriminate.
Qed.
